(** * k8s-platform-lcm: image reference parsing and container inventory

    A shallow embedding of [internal/kubernetes/k8s.go] and the properties of
    its image-reference parser, namespace resolver and inventory aggregator.

    Go strings are byte sequences; they are modelled by [string] (a list of
    8-bit [ascii] characters).  Every separator the program passes to the
    [strings] package is a non-empty ASCII literal.  A Go function either
    returns, panics with a runtime error, or ends the process through
    [log.Fatal]; the three outcomes are the constructors of [res].  Log output
    below the fatal level does not influence any result and is left out. *)

From Stdlib Require Import Ascii String ZArith Lia.
From stdpp Require Import base option list strings gmap fin_maps.


(** ** Outcomes of a Go call *)

Inductive runtime_error : Type :=
  | IndexOutOfRange (index len : nat).

Inductive res (A : Type) : Type :=
  | Return (a : A)
  | Panic (e : runtime_error)
  | Fatal (msg : string).

Arguments Return {A} a.
Arguments Panic {A} e.
Arguments Fatal {A} msg.

#[global] Instance res_ret : MRet res := fun A a => Return a.
#[global] Instance res_bind : MBind res := fun A B f m =>
  match m with
  | Return a => f a
  | Panic e => Panic e
  | Fatal msg => Fatal msg
  end.

(** The [error] interface: the only errors the program builds come from
    [errors.New]; [None] stands for [nil]. *)
Inductive error : Type :=
  | errors_New (text : string).

(** [a[i]] on a slice: a runtime panic when [i] is out of range. *)
Definition slice_index (a : list string) (i : nat) : res string :=
  match a !! i with
  | Some x => Return x
  | None => Panic (IndexOutOfRange i (length a))
  end.

(** ** The functions of Go's [strings] package that the program calls *)

Module strings.

(** [strings.HasPrefix]. *)
Fixpoint HasPrefix (s prefix : string) {struct prefix} : bool :=
match prefix, s with
| EmptyString, _ => true
| String _ _, EmptyString => false
| String a prefix', String b s' => Ascii.eqb a b && HasPrefix s' prefix'
end.

(** [strings.Contains s substr]: [substr] occurs at some position of [s]. *)
Fixpoint Contains (s substr : string) : bool :=
HasPrefix s substr ||
match s with
| EmptyString => false
| String _ s' => Contains s' substr
end.

(** [strings.Count s substr] for a non-empty [substr]: the number of
  non-overlapping instances, found from left to right.  [skip] is the
  number of bytes of the instance just matched that remain to be passed. *)
Fixpoint Count_from (substr : string) (skip : nat) (s : string) : nat :=
match s with
| EmptyString => 0
| String _ s' =>
    match skip with
    | S k => Count_from substr k s'
    | O => if HasPrefix s substr
           then S (Count_from substr (String.length substr - 1) s')
           else Count_from substr 0 s'
    end
end.

Definition Count (s substr : string) : nat := Count_from substr 0 s.

(** [strings.Replace s old new n] with [n < 0] (no limit) and a non-empty
  [old]: every non-overlapping instance of [old], found from left to right,
  is replaced by [new]. *)
Fixpoint Replace_from (old new : string) (skip : nat) (s : string) : string :=
match s with
| EmptyString => EmptyString
| String c s' =>
    match skip with
    | S k => Replace_from old new k s'
    | O => if HasPrefix s old
           then new +:+ Replace_from old new (String.length old - 1) s'
           else String c (Replace_from old new 0 s')
    end
end.

Definition Replace (s old new : string) : string := Replace_from old new 0 s.

(** The loop of [genSplit] (with [sepSave = 0]) for a non-empty [sep]: cut at
  the first [cuts] instances of [sep]; the last piece is the unsplit
  remainder.  The result is the first piece and the pieces after it. *)
Fixpoint genSplit_from (sep : string) (cuts skip : nat) (s : string)
: string * list string :=
match s with
| EmptyString => (EmptyString, [])
| String c s' =>
    match skip with
    | S k => genSplit_from sep cuts k s'
    | O =>
        match cuts with
        | S cuts' =>
            if HasPrefix s sep
            then let '(p, ps) :=
                   genSplit_from sep cuts' (String.length sep - 1) s' in
                 (EmptyString, p :: ps)
            else let '(p, ps) := genSplit_from sep cuts 0 s' in
                 (String c p, ps)
        | O => let '(p, ps) := genSplit_from sep 0 0 s' in (String c p, ps)
        end
    end
end.

(** [genSplit s sep 0 n]: [n = 0] gives no piece, [n < 0] means all pieces
  ([n = Count s sep + 1]), and [n] is capped by [len s + 1]. *)
Definition genSplit (s sep : string) (n : Z) : list string :=
if (n =? 0)%Z then []
else
  let n := if (n <? 0)%Z then Count s sep + 1 else Z.to_nat n in
  let n := if String.length s + 1 <? n then String.length s + 1 else n in
  let '(p, ps) := genSplit_from sep (n - 1) 0 s in p :: ps.

(** [strings.Split] and [strings.SplitN]. *)
Definition Split (s sep : string) : list string := genSplit s sep (-1).
Definition SplitN (s sep : string) (n : Z) : list string := genSplit s sep n.

End strings.

(** ** The parser *)

(** [Container] holds the info of a container running in the cluster. *)
Record Container : Type := mkContainer {
  FullPath : string;
  URL : string;
  Name : string;
  Version : string
}.

(** The zero value [Container{}]. *)
Definition Container_zero : Container :=
  {| FullPath := ""; URL := ""; Name := ""; Version := "" |}.

Definition UnsupportedPortSyntax : error :=
  errors_New "We do not support URLs with ports".

(** [ImageStringToContainerStruct] converts an image string to container
    information.  The result is the pair [(Container, error)] of the Go
    function. *)
Definition ImageStringToContainerStruct (containerString : string)
  : res (Container * option error) :=
  let version := "0" in
  let URL := "" in
  let fullPath := containerString in
  let name := containerString in
  let containerString := strings.Replace containerString ":443" "" in
  if 2 <=? strings.Count containerString ":" then
    Return (Container_zero, Some UnsupportedPortSyntax)
  else
    '(version, containerString, name) ←
      (if strings.Contains containerString ":" then
         let subAndVersion := strings.Split containerString ":" in
         version ← slice_index subAndVersion 1;
         containerString ← slice_index subAndVersion 0;
         name ← slice_index subAndVersion 0;
         Return (version, containerString, name)
       else Return (version, containerString, name));
    '(URL, name) ←
      (if strings.Contains containerString "." then
         let urlAndImage := strings.SplitN containerString "/" 2 in
         URL ← slice_index urlAndImage 0;
         name ← slice_index urlAndImage 1;
         Return (URL, name)
       else Return (URL, name));
    Return ({| FullPath := fullPath; URL := URL;
               Name := name; Version := version |}, None).

(** ** The cluster

    The Kubernetes API is outside the program.  A [Clientset] is modelled by
    the answers of the two requests the program sends; [api_call] records
    which requests were sent, in order. *)

Record V1Container : Type := { Image : string }.
Record PodSpec : Type := {
  Containers : list V1Container;
  InitContainers : list V1Container
}.
Record Pod : Type := { Spec : PodSpec }.
Record PodList : Type := { pod_Items : list Pod }.

Record ObjectMeta : Type := { GetName : string }.
Record Namespace : Type := { GetObjectMeta : ObjectMeta }.
Record NamespaceList : Type := { namespace_Items : list Namespace }.

Record Clientset : Type := {
  (** [client.CoreV1().Namespaces().List(metav1.ListOptions{})] *)
  Namespaces_List : NamespaceList + error;
  (** [client.CoreV1().Pods(namespace).List(metav1.ListOptions{})] *)
  Pods_List : string → PodList + error
}.

Inductive api_call : Type :=
  | ListNamespaces
  | ListPods (namespace : string).

(** A computation that talks to the cluster: the requests sent and the
    outcome. *)
Record M (A : Type) : Type := mkM {
  calls : list api_call;
  outcome : res A
}.

Arguments mkM {A} calls outcome.
Arguments calls {A} m.
Arguments outcome {A} m.

#[global] Instance M_ret : MRet M := fun A a => mkM [] (Return a).
#[global] Instance M_bind : MBind M := fun A B f m =>
  match outcome m with
  | Return a => mkM (calls m ++ calls (f a)) (outcome (f a))
  | Panic e => mkM (calls m) (Panic e)
  | Fatal msg => mkM (calls m) (Fatal msg)
  end.

Definition lift {A : Type} (r : res A) : M A := mkM [] r.

(** [log.WithError(err).Fatal(msg)] ends the process. *)
Definition log_Fatal {A : Type} (msg : string) : M A := mkM [] (Fatal msg).

Definition request_Namespaces_List (client : Clientset)
  : M (NamespaceList + error) :=
  mkM [ListNamespaces] (Return (Namespaces_List client)).

Definition request_Pods_List (client : Clientset) (namespace : string)
  : M (PodList + error) :=
  mkM [ListPods namespace] (Return (Pods_List client namespace)).

(** [for _, x := range l { s = body(s, x) }] over a slice. *)
Fixpoint for_range {A S : Type} (l : list A) (body : S → A → M S) (s : S)
  : M S :=
  match l with
  | [] => mret s
  | x :: l' => s' ← body s x; for_range l' body s'
  end.

(** ** Namespace resolver, image collector, inventory aggregator *)

Section Kubernetes.

(** [rest.Config], and what the program reads from its surroundings to
    build a client. *)
Variable Config : Type.

Record Env : Type := {
  os_Getenv : string → string;
  filepath_Join : list string → string;
  clientcmd_BuildConfigFromFlags : string → string → Config + error;
  rest_InClusterConfig : Config + error;
  kubernetes_NewForConfig : Config → Clientset + error
}.

Variable env : Env.

(** [for key := range m] visits every key of a map once, in an order that
    the language leaves open. *)
Variable rangeKeys : gmap string bool → list string.
Hypothesis rangeKeys_keys : ∀ m, rangeKeys m ≡ₚ (map_to_list m).*1.

Definition homeDir : string :=
  let home := os_Getenv env "HOME" in
  if negb (String.eqb home "") then home
  else os_Getenv env "USERPROFILE".

Definition getKubernetesClient (useLocally : bool) : M Clientset :=
  if useLocally then
    let kubeconfig := filepath_Join env [homeDir; ".kube"; "config"] in
    match clientcmd_BuildConfigFromFlags env "" kubeconfig with
    | inr _ => log_Fatal "Could not find kubernetes config"
    | inl config =>
        match kubernetes_NewForConfig env config with
        | inr _ => log_Fatal "Could not load kubernetes config"
        | inl clientset => mret clientset
        end
    end
  else
    match rest_InClusterConfig env with
    | inr _ => log_Fatal "Could not find kubernetes config in the cluster"
    | inl config =>
        match kubernetes_NewForConfig env config with
        | inr _ => log_Fatal "Could not load kubernetes config in the cluster"
        | inl clientset => mret clientset
        end
    end.

Definition getRunningContainers (client : Clientset) (namespace : string)
  : M (gmap string bool) :=
  let containers : gmap string bool := ∅ in
  r ← request_Pods_List client namespace;
  match r with
  | inr _ => log_Fatal "Could not fetch pods"
  | inl pods =>
      mret (foldl (fun containers pod =>
              let containers :=
                foldl (fun containers container =>
                         <[Image container := true]> containers)
                      containers (Containers (Spec pod)) in
              foldl (fun containers container =>
                       <[Image container := true]> containers)
                    containers (InitContainers (Spec pod)))
            containers (pod_Items pods))
  end.

Definition getAllNamespaces (client : Clientset) : M (list string) :=
  let ns : list string := [] in
  r ← request_Namespaces_List client;
  match r with
  | inr _ => log_Fatal "Could not fetch namespaces"
  | inl namespaces =>
      mret (foldl (fun ns namespace =>
                     ns ++ [GetName (GetObjectMeta namespace)])
                  ns (namespace_Items namespaces))
  end.

Definition getNamespaces (namespaces : list string) (client : Clientset)
  : M (list string) :=
  if length namespaces =? 0 then getAllNamespaces client
  else mret namespaces.

(** [GetContainersFromNamespaces] fetches all containers and init
    containers. *)
Definition GetContainersFromNamespaces (namespaces : list string)
    (useLocally : bool) : M (list Container) :=
  client ← getKubernetesClient useLocally;
  namespaces ← getNamespaces namespaces client;
  let runningContainers : gmap string bool := ∅ in
  runningContainers ←
    for_range namespaces (fun runningContainers namespace =>
      containers ← getRunningContainers client namespace;
      mret (foldl (fun runningContainers key =>
                     <[key := true]> runningContainers)
                  runningContainers (rangeKeys containers)))
      runningContainers;
  let containers : list Container := [] in
  containers ←
    for_range (rangeKeys runningContainers) (fun containers key =>
      '(container, err) ← lift (ImageStringToContainerStruct key);
      match err with
      | None => mret (containers ++ [container])
      | Some _ => mret containers
      end)
      containers;
  mret containers.

End Kubernetes.

Arguments os_Getenv {Config} e _.
Arguments getNamespaces namespaces client : simpl never.

(** ** Reading a reference by its separators

    [before_byte b s] is the text of [s] before its first byte [b] (all of
    [s] when [b] does not occur), [after_byte b s] the text after it. *)

Fixpoint before_byte (b : ascii) (s : string) : string :=
  match s with
  | EmptyString => EmptyString
  | String c s' => if Ascii.eqb c b then EmptyString
                   else String c (before_byte b s')
  end.

Fixpoint after_byte (b : ascii) (s : string) : string :=
  match s with
  | EmptyString => EmptyString
  | String c s' => if Ascii.eqb c b then s' else after_byte b s'
  end.

(** The string the parser works on once [":443"] is removed, and the working
    name: what stands before the colon. *)
Definition stripped (raw : string) : string := strings.Replace raw ":443" "".
Definition working_name (raw : string) : string :=
  before_byte ":" (stripped raw).

(** The tag: the text after the colon, ["0"] when there is no colon. *)
Definition tag_of (raw : string) : string :=
  if strings.Contains (stripped raw) ":" then after_byte ":" (stripped raw)
  else "0".

(** The outcome of the parser read off the reference, case by case: more
    than one colon is refused; a dotted working name is cut at its first
    ['/'], which has to be there; otherwise the name is the working name, or
    the reference as given when it has no colon either. *)
Definition parse_by_cases (raw : string) : res (Container * option error) :=
  if 2 <=? strings.Count (stripped raw) ":" then
    Return (Container_zero, Some UnsupportedPortSyntax)
  else if strings.Contains (working_name raw) "." then
    if strings.Contains (working_name raw) "/" then
      Return ({| FullPath := raw;
                 URL := before_byte "/" (working_name raw);
                 Name := after_byte "/" (working_name raw);
                 Version := tag_of raw |}, None)
    else Panic (IndexOutOfRange 1 1)
  else
    Return ({| FullPath := raw;
               URL := "";
               Name := if strings.Contains (stripped raw) ":"
                       then working_name raw else raw;
               Version := tag_of raw |}, None).

(** ** What the cluster reports

    The image strings of a pod, of a namespace (none when its pods cannot be
    listed) and of a sequence of namespaces, with repetitions. *)

Definition pod_images (pod : Pod) : list string :=
  (Image <$> Containers (Spec pod)) ++ (Image <$> InitContainers (Spec pod)).

Definition namespace_images (client : Clientset) (namespace : string)
  : list string :=
  match Pods_List client namespace with
  | inl pods => pod_Items pods ≫= pod_images
  | inr _ => []
  end.

Definition cluster_images (client : Clientset) (namespaces : list string)
  : list string :=
  namespaces ≫= namespace_images client.

(** The record an image string contributes to the inventory, if any. *)
Definition accepted (key : string) : option Container :=
  match ImageStringToContainerStruct key with
  | Return (container, None) => Some container
  | _ => None
  end.

(** ** Example clusters *)

Definition pod_with (images initImages : list string) : Pod :=
  {| Spec := {| Containers := (fun i => {| Image := i |}) <$> images;
                InitContainers := (fun i => {| Image := i |}) <$> initImages |} |}.

Definition namespace_named (name : string) : Namespace :=
  {| GetObjectMeta := {| GetName := name |} |}.

(** Namespace ["A"] runs [image] in two pods, namespace ["B"] in one. *)
Definition two_namespaces_client (image : string) : Clientset :=
  {| Namespaces_List :=
       inl {| namespace_Items := [namespace_named "A"; namespace_named "B"] |};
     Pods_List := fun namespace =>
       inl {| pod_Items :=
                if String.eqb namespace "A"
                then [pod_with [image] []; pod_with [image] []]
                else if String.eqb namespace "B" then [pod_with [image] []]
                else [] |} |}.

(** One namespace whose pods use two references that parse and one with an
    explicit port. *)
Definition mixed_client : Clientset :=
  {| Namespaces_List :=
       inl {| namespace_Items := [namespace_named "default"] |};
     Pods_List := fun namespace =>
       inl {| pod_Items :=
                [pod_with ["nginx:1.19"; "myregistry.io:5000/nginx:1.19"]
                          ["myregistry.io/nginx:1.19"]] |} |}.

(** Surroundings in which building a client yields [client]. *)
Definition env_with (client : Clientset) : Env unit :=
  {| os_Getenv := fun _ => "/root";
     filepath_Join := String.concat "/";
     clientcmd_BuildConfigFromFlags := fun _ _ => inl tt;
     rest_InClusterConfig := inl tt;
     kubernetes_NewForConfig := fun _ => inl client |}.

(** One admissible order of map iteration: the order of the map's list of
    entries. *)
Definition keys_in_map_order (m : gmap string bool) : list string :=
  (map_to_list m).*1.

(** The second loop of [GetContainersFromNamespaces], on the keys in the
    order they are visited. *)
Definition inventory_of_keys (keys : list string) : M (list Container) :=
  for_range keys (fun containers key =>
    '(container, err) ← lift (ImageStringToContainerStruct key);
    match err with
    | None => mret (containers ++ [container])
    | Some _ => mret containers
    end)
    [].

(** The names [getAllNamespaces] reads off a namespace list. *)
Definition namespace_names (namespaces : NamespaceList) : list string :=
  (fun namespace => GetName (GetObjectMeta namespace))
    <$> namespace_Items namespaces.

(** A cluster in which the pods of namespace ["B"] cannot be listed. *)
Definition forbidden_B_client : Clientset :=
  {| Namespaces_List :=
       inl {| namespace_Items :=
                [namespace_named "A"; namespace_named "B";
                 namespace_named "C"] |};
     Pods_List := fun namespace =>
       if String.eqb namespace "B" then inr (errors_New "forbidden")
       else inl {| pod_Items := [pod_with ["nginx:1.19"] []] |} |}.

(** One namespace whose pods use two references that parse and a bare
    registry host, ["quay.io"]: a dot and no ['/']. *)
Definition bare_host_client : Clientset :=
  {| Namespaces_List :=
       inl {| namespace_Items := [namespace_named "default"] |};
     Pods_List := fun namespace =>
       inl {| pod_Items :=
                [pod_with ["nginx:1.19"; "quay.io"]
                          ["myregistry.io/nginx:1.19"]] |} |}.

(** ** Logging set-up ([cmd/lcm/main.go])

    The logrus levels, from the most to the least severe; a logger writes
    an entry when its own level is at least the level of the entry.  The
    command flags are the three booleans [initFlags] binds. *)

Inductive Level : Type :=
  | PanicLevel | FatalLevel | ErrorLevel | WarnLevel
  | InfoLevel | DebugLevel | TraceLevel.

Definition Level_rank (level : Level) : nat :=
  match level with
  | PanicLevel => 0 | FatalLevel => 1 | ErrorLevel => 2 | WarnLevel => 3
  | InfoLevel => 4 | DebugLevel => 5 | TraceLevel => 6
  end.

Inductive Output : Type := os_Stdout | os_Stderr.

Record Logger : Type := { Out : Output; LoggerLevel : Level }.

Definition log_SetOutput (out : Output) (std : Logger) : Logger :=
  {| Out := out; LoggerLevel := LoggerLevel std |}.

Definition log_SetLevel (level : Level) (std : Logger) : Logger :=
  {| Out := Out std; LoggerLevel := level |}.

Definition log_IsLevelEnabled (std : Logger) (level : Level) : bool :=
  Level_rank level <=? Level_rank (LoggerLevel std).

Record CommandFlags : Type :=
  { LocalKubernetes : bool; Verbose : bool; Debug : bool }.

(** [initLogging], on the standard logger [std]. *)
Definition initLogging (ConfigFlags : CommandFlags) (std : Logger) : Logger :=
  let std := log_SetOutput os_Stdout std in
  let std := log_SetLevel ErrorLevel std in
  if Verbose ConfigFlags then log_SetLevel InfoLevel std
  else if Debug ConfigFlags then log_SetLevel DebugLevel std
  else std.

(** * Facts about the [strings] functions *)

Section StringsFacts.

Import strings.

Lemma HasPrefix_empty (sep : string) :
  sep ≠ EmptyString → HasPrefix EmptyString sep = false.
Proof. destruct sep; [congruence | reflexivity]. Qed.

Lemma HasPrefix_byte (b c : ascii) (s : string) :
  HasPrefix (String c s) (String b EmptyString) = Ascii.eqb b c.
Proof. simpl. apply andb_true_r. Qed.

Lemma Contains_Count (sep s : string) :
  sep ≠ EmptyString → Contains s sep = false ↔ Count s sep = 0.
Proof.
  intros Hsep. unfold Count. induction s as [|c s IH].
  - cbn [Contains Count_from]. rewrite HasPrefix_empty by done. done.
  - cbn [Contains Count_from].
    destruct (HasPrefix (String c s) sep); simpl; [done | exact IH].
Qed.

Lemma Contains_true_Count (sep s : string) :
  sep ≠ EmptyString → Contains s sep = true ↔ 1 ≤ Count s sep.
Proof.
  intros Hsep. pose proof (Contains_Count sep s Hsep) as H.
  destruct (Contains s sep); split; intros; try done.
  - destruct (Count s sep); [|lia]. by destruct H as [_ H]; specialize (H eq_refl).
  - destruct H as [H _]. rewrite H in *; [lia | done].
Qed.

Lemma Count_from_le_length (sep : string) (s : string) :
  ∀ skip, Count_from sep skip s ≤ String.length s.
Proof.
  induction s as [|c s IH]; intros skip; simpl; [lia|].
  destruct skip.
  - destruct (HasPrefix (String c s) sep).
    + specialize (IH (String.length sep - 1)). lia.
    + specialize (IH 0). lia.
  - specialize (IH skip). lia.
Qed.

Lemma genSplit_from_length (sep : string) (s : string) :
  ∀ cuts skip,
    length (genSplit_from sep cuts skip s).2
    = Nat.min cuts (Count_from sep skip s).
Proof.
  induction s as [|c s IH]; intros cuts skip.
  - simpl. lia.
  - cbn [genSplit_from Count_from]. destruct skip as [|k]; [|apply IH].
    destruct cuts as [|cuts'].
    + specialize (IH 0 0). destruct (genSplit_from sep 0 0 s). simpl in *.
      rewrite IH. lia.
    + destruct (HasPrefix (String c s) sep).
      * specialize (IH cuts' (String.length sep - 1)).
        destruct (genSplit_from sep cuts' _ s). simpl in *. lia.
      * specialize (IH (S cuts') 0).
        destruct (genSplit_from sep (S cuts') 0 s). simpl in *. lia.
Qed.

Lemma length_pieces (r : string * list string) :
  length (let '(p, ps) := r in p :: ps) = S (length r.2).
Proof. by destruct r. Qed.

Lemma Split_length (s sep : string) :
  length (Split s sep) = Count s sep + 1.
Proof.
  unfold Split, genSplit.
  change (-1 =? 0)%Z with false. change (-1 <? 0)%Z with true. cbv iota zeta.
  pose proof (Count_from_le_length sep s 0) as Hle. fold (Count s sep) in Hle.
  destruct (Nat.ltb_spec (String.length s + 1) (Count s sep + 1)); [lia|].
  rewrite length_pieces, genSplit_from_length. fold (Count s sep). lia.
Qed.

Lemma SplitN_2_length (s sep : string) :
  length (SplitN s sep 2) = 1 + Nat.min 1 (Count s sep).
Proof.
  unfold SplitN, genSplit.
  change (2 =? 0)%Z with false. change (2 <? 0)%Z with false. cbv iota zeta.
  change (Z.to_nat 2) with 2.
  pose proof (Count_from_le_length sep s 0) as Hle. fold (Count s sep) in Hle.
  destruct (Nat.ltb_spec (String.length s + 1) 2) as [Hlt|Hge];
    rewrite length_pieces, genSplit_from_length; fold (Count s sep); lia.
Qed.

(** Single-byte separators: the pieces are [before_byte] and
    [after_byte]. *)

Lemma genSplit_from_byte_absent (b : ascii) (s : string) (cuts : nat) :
  Contains s (String b EmptyString) = false →
  genSplit_from (String b EmptyString) cuts 0 s = (s, []).
Proof.
  induction s as [|c s IH]; intros Hc; [done|].
  cbn [Contains] in Hc. rewrite HasPrefix_byte in Hc.
  apply orb_false_elim in Hc as [Hb Hc].
  destruct cuts; cbn [genSplit_from];
    rewrite ?HasPrefix_byte, ?Hb, (IH Hc); done.
Qed.

Lemma genSplit_from_0 (sep : string) (s : string) :
  genSplit_from sep 0 0 s = (s, []).
Proof.
  induction s as [|c s IH]; [done|]. cbn [genSplit_from]. by rewrite IH.
Qed.

Lemma genSplit_from_byte_present (b : ascii) (s : string) (cuts : nat) :
  Contains s (String b EmptyString) = true →
  genSplit_from (String b EmptyString) (S cuts) 0 s
  = (before_byte b s,
     let '(p, ps) :=
       genSplit_from (String b EmptyString) cuts 0 (after_byte b s)
     in p :: ps).
Proof.
  induction s as [|c s IH]; intros Hc; [done|].
  cbn [Contains] in Hc. rewrite HasPrefix_byte in Hc.
  cbn [genSplit_from before_byte after_byte]. rewrite HasPrefix_byte.
  rewrite (Ascii.eqb_sym c b).
  destruct (Ascii.eqb b c); simpl in Hc |- *.
  - by destruct (genSplit_from _ cuts 0 s).
  - by rewrite (IH Hc).
Qed.

Lemma before_byte_absent (b : ascii) (s : string) :
  Contains s (String b EmptyString) = false → before_byte b s = s.
Proof.
  induction s as [|c s IH]; intros Hc; [done|].
  cbn [Contains] in Hc. rewrite HasPrefix_byte in Hc.
  apply orb_false_elim in Hc as [Hb Hc].
  simpl. rewrite Ascii.eqb_sym, Hb. by rewrite IH.
Qed.

Lemma Split_byte_one (b : ascii) (s : string) :
  Count s (String b EmptyString) = 1 →
  Split s (String b EmptyString) = [before_byte b s; after_byte b s].
Proof.
  intros H1. unfold Split, genSplit.
  change (-1 =? 0)%Z with false. change (-1 <? 0)%Z with true. cbv iota zeta.
  pose proof (Count_from_le_length (String b EmptyString) s 0) as Hle.
  fold (Count s (String b EmptyString)) in Hle. rewrite H1 in Hle |- *.
  destruct (Nat.ltb_spec (String.length s + 1) (1 + 1)); [lia|].
  change (1 + 1 - 1) with 1.
  rewrite genSplit_from_byte_present
    by (apply Contains_true_Count; [done | lia]).
  by rewrite genSplit_from_0.
Qed.

Lemma SplitN_2_byte_present (b : ascii) (s : string) :
  Contains s (String b EmptyString) = true →
  SplitN s (String b EmptyString) 2 = [before_byte b s; after_byte b s].
Proof.
  intros Hc. unfold SplitN, genSplit.
  change (2 =? 0)%Z with false. change (2 <? 0)%Z with false. cbv iota zeta.
  change (Z.to_nat 2) with 2.
  pose proof (Count_from_le_length (String b EmptyString) s 0) as Hle.
  apply Contains_true_Count in Hc as Hn; [|done]. unfold Count in Hn.
  destruct (Nat.ltb_spec (String.length s + 1) 2); [lia|].
  change (2 - 1) with 1. rewrite genSplit_from_byte_present by done.
  by rewrite genSplit_from_0.
Qed.

Lemma SplitN_2_byte_absent (b : ascii) (s : string) :
  Contains s (String b EmptyString) = false →
  SplitN s (String b EmptyString) 2 = [s].
Proof.
  intros Hc. unfold SplitN, genSplit.
  change (2 =? 0)%Z with false. cbv iota zeta.
  by rewrite genSplit_from_byte_absent.
Qed.

End StringsFacts.

(** * The parser *)

Section Parser.

Import strings.

Local Arguments SplitN : simpl never.
Local Arguments Split : simpl never.
Local Arguments Contains : simpl never.
Local Arguments Count : simpl never.

(** The parser agrees with its case-by-case reading on every input. *)
Lemma ImageStringToContainerStruct_by_cases (raw : string) :
  ImageStringToContainerStruct raw = parse_by_cases raw.
Proof.
  unfold ImageStringToContainerStruct, parse_by_cases, tag_of, working_name.
  fold (stripped raw). set (s := stripped raw).
  destruct (Nat.leb_spec 2 (Count s ":")) as [Hge|Hlt]; [done|].
  destruct (Contains s ":") eqn:Hcolon.
  - assert (Count s ":" = 1) as H1.
    { apply Contains_true_Count in Hcolon; [lia | done]. }
    rewrite (Split_byte_one _ _ H1). cbn.
    destruct (Contains (before_byte ":" s) ".") eqn:Hdot; [|done].
    destruct (Contains (before_byte ":" s) "/") eqn:Hslash.
    + by rewrite SplitN_2_byte_present.
    + by rewrite SplitN_2_byte_absent.
  - rewrite (before_byte_absent _ _ Hcolon). cbn.
    destruct (Contains s ".") eqn:Hdot; [|done].
    destruct (Contains s "/") eqn:Hslash.
    + by rewrite SplitN_2_byte_present.
    + by rewrite SplitN_2_byte_absent.
Qed.

(** The parser never ends the process, and its only panic is the index
    [1] of a one-element slice. *)
Lemma ImageStringToContainerStruct_outcomes (raw : string) :
  (∃ c, ImageStringToContainerStruct raw = Return (c, None))
  ∨ ImageStringToContainerStruct raw
    = Return (Container_zero, Some UnsupportedPortSyntax)
  ∨ ImageStringToContainerStruct raw = Panic (IndexOutOfRange 1 1).
Proof.
  rewrite ImageStringToContainerStruct_by_cases. unfold parse_by_cases.
  repeat case_match; eauto.
Qed.

(** A dotted working name without ['/'] makes the parser panic. *)
Lemma ImageStringToContainerStruct_panic_iff (raw : string) :
  (∃ e, ImageStringToContainerStruct raw = Panic e)
  ↔ Count (stripped raw) ":" < 2
    ∧ Contains (working_name raw) "." = true
    ∧ Contains (working_name raw) "/" = false.
Proof.
  rewrite ImageStringToContainerStruct_by_cases. unfold parse_by_cases.
  destruct (Nat.leb_spec 2 (Count (stripped raw) ":")).
  - split; [by intros [? ?] | lia].
  - destruct (Contains (working_name raw) ".").
    + destruct (Contains (working_name raw) "/").
      * split; [by intros [? ?] | by intros (_ & _ & ?)].
      * split; [done | eauto].
    + split; [by intros [? ?] | by intros (_ & ? & _)].
Qed.

(** Claim C1.  The parser is not total: on ["my.image:1.0"] the working
    name ["my.image"] has a dot and no ['/'], [SplitN] yields one piece, and
    reading piece 1 panics with an index out of range. *)
Theorem ImageStringToContainerStruct_panics_without_slash :
  SplitN "my.image" "/" 2 = ["my.image"]
  ∧ ImageStringToContainerStruct "my.image:1.0"
    = Panic (IndexOutOfRange 1 1).
Proof. split; reflexivity. Qed.

(** Claim C2, as stated, fails: on the error path the record returned is
    the zero value, so its [FullPath] is not the input. *)
Lemma FullPath_not_kept_on_error :
  ¬ (∀ raw c err,
       ImageStringToContainerStruct raw = Return (c, err) →
       FullPath c = raw).
Proof.
  intros H.
  specialize (H "myregistry.io:5000/nginx:1.19" Container_zero
                (Some UnsupportedPortSyntax) eq_refl).
  discriminate H.
Qed.

(** Claim C2, amended.  Whenever parsing succeeds the record carries the
    input, unchanged, as [FullPath]. *)
Theorem FullPath_on_success (raw : string) (c : Container) :
  ImageStringToContainerStruct raw = Return (c, None) →
  FullPath c = raw.
Proof.
  rewrite ImageStringToContainerStruct_by_cases. unfold parse_by_cases.
  intros H. repeat case_match; by simplify_eq.
Qed.

Lemma FullPath_on_success_witness :
  FullPath {| FullPath := "nginx:1.19"; URL := ""; Name := "nginx";
              Version := "1.19" |} = "nginx:1.19".
Proof. apply (FullPath_on_success "nginx:1.19"). reflexivity. Defined.

(** Claim C3, as stated, fails: ["nginx:"] parses to a record with an
    empty [Version]. *)
Lemma parsed_record_invariant_fails :
  ¬ (∀ raw c,
       ImageStringToContainerStruct raw = Return (c, None) →
       FullPath c ≠ "" ∧ FullPath c = raw ∧ Name c ≠ "" ∧ Version c ≠ ""
       ∧ (Contains (working_name raw) "." = false → URL c = "")).
Proof.
  intros H.
  destruct (H "nginx:" {| FullPath := "nginx:"; URL := ""; Name := "nginx";
                          Version := "" |} eq_refl)
    as (_ & _ & _ & Hv & _).
  by apply Hv.
Qed.

(** The same invariant fails for [FullPath] and [Name] on the empty
    reference, and for [Name] on [":1.19"] and on ["a.b/"]. *)
Lemma parsed_record_empty_fields :
  ImageStringToContainerStruct ""
  = Return ({| FullPath := ""; URL := ""; Name := ""; Version := "0" |},
            None)
  ∧ ImageStringToContainerStruct ":1.19"
    = Return ({| FullPath := ":1.19"; URL := ""; Name := "";
                 Version := "1.19" |}, None)
  ∧ ImageStringToContainerStruct "a.b/"
    = Return ({| FullPath := "a.b/"; URL := "a.b"; Name := "";
                 Version := "0" |}, None).
Proof. repeat split. Qed.

Lemma stripped_empty (raw : string) : stripped raw ≠ "" → raw ≠ "".
Proof. intros H ->. by apply H. Qed.

(** Claim C3, amended.  On success [FullPath] is the input, and non-empty
    when the input is; [Version] is ["0"] without a colon and the text
    after the colon otherwise, so non-empty unless that text is empty;
    [Name] is the text after the first ['/'] of a dotted working name, or
    the working name before a colon, and is non-empty when the text it is
    read from is (the stripped reference, when there is neither dot nor
    colon); [URL] is empty unless the working name has a dot. *)
Theorem parsed_record_fields (raw : string) (c : Container) :
  ImageStringToContainerStruct raw = Return (c, None) →
  FullPath c = raw
  ∧ (raw ≠ "" → FullPath c ≠ "")
  ∧ (Contains (stripped raw) ":" = false → Version c = "0")
  ∧ (Contains (stripped raw) ":" = true →
     Version c = after_byte ":" (stripped raw))
  ∧ (Contains (stripped raw) ":" = false
     ∨ after_byte ":" (stripped raw) ≠ "" → Version c ≠ "")
  ∧ (Contains (working_name raw) "." = true →
     Name c = after_byte "/" (working_name raw))
  ∧ (Contains (working_name raw) "." = false →
     Contains (stripped raw) ":" = true → Name c = working_name raw)
  ∧ (Contains (working_name raw) "." = true
     ∧ after_byte "/" (working_name raw) ≠ ""
     ∨ Contains (working_name raw) "." = false
       ∧ Contains (stripped raw) ":" = true ∧ working_name raw ≠ ""
     ∨ Contains (working_name raw) "." = false
       ∧ Contains (stripped raw) ":" = false ∧ stripped raw ≠ ""
     → Name c ≠ "")
  ∧ (Contains (working_name raw) "." = false → URL c = "").
Proof.
  rewrite ImageStringToContainerStruct_by_cases.
  unfold parse_by_cases, tag_of. intros H.
  pose proof (stripped_empty raw) as Hraw.
  destruct (2 <=? Count (stripped raw) ":"); [done|].
  destruct (Contains (working_name raw) ".") eqn:Hdot.
  - destruct (Contains (working_name raw) "/"); [|done].
    simplify_eq. cbn [FullPath Version Name URL].
    destruct (Contains (stripped raw) ":"); intuition congruence.
  - simplify_eq. cbn [FullPath Version Name URL].
    destruct (Contains (stripped raw) ":"); intuition congruence.
Qed.

Lemma parsed_record_fields_witness :
  let c := {| FullPath := "myregistry.io/nginx:1.19";
              URL := "myregistry.io"; Name := "nginx";
              Version := "1.19" |} in
  FullPath c ≠ "" ∧ Version c ≠ "" ∧ Name c ≠ "".
Proof.
  intros c.
  destruct (parsed_record_fields "myregistry.io/nginx:1.19" c eq_refl)
    as (_ & Hf & _ & _ & Hv & _ & _ & Hn & _).
  split; [|split].
  - apply Hf. discriminate.
  - apply Hv. right. vm_compute. discriminate.
  - apply Hn. left. split; [reflexivity | vm_compute; discriminate].
Defined.

(** Claim C4, as stated, fails: ["library/my.image:1"] has one colon and
    no dot before its first ['/'], yet its working name has a dot, so the
    first path segment is taken for the registry host. *)
Lemma RegistryURL_set_without_host_dot :
  ¬ (∀ raw,
       Count (stripped raw) ":" ≤ 1 →
       Contains (before_byte "/" (stripped raw)) "." = false →
       ∃ c, ImageStringToContainerStruct raw = Return (c, None)
            ∧ URL c = "").
Proof.
  intros H.
  destruct (H "library/my.image:1") as (c & Hc & Hurl).
  - vm_compute. lia.
  - reflexivity.
  - vm_compute in Hc. by simplify_eq.
Qed.

(** Claim C4, amended.  With at most one colon left and no dot in the
    working name (the text before the colon), parsing succeeds and [URL]
    is empty. *)
Theorem RegistryURL_empty_without_dot (raw : string) :
  Count (stripped raw) ":" ≤ 1 →
  Contains (working_name raw) "." = false →
  ∃ c, ImageStringToContainerStruct raw = Return (c, None) ∧ URL c = "".
Proof.
  intros Hcount Hdot.
  rewrite ImageStringToContainerStruct_by_cases. unfold parse_by_cases.
  destruct (Nat.leb_spec 2 (Count (stripped raw) ":")); [lia|].
  rewrite Hdot. eauto.
Qed.

Lemma RegistryURL_empty_without_dot_witness :
  ∃ c, ImageStringToContainerStruct "library/nginx:1.19" = Return (c, None)
       ∧ URL c = "".
Proof.
  apply (RegistryURL_empty_without_dot "library/nginx:1.19").
  - vm_compute. lia.
  - reflexivity.
Defined.



(** Claim C6.  [":443"] is removed before the colons are counted:
    ["myregistry.io:443/nginx:1.19"] parses, and to the same registry
    host, name and version as ["myregistry.io/nginx:1.19"]. *)
Theorem default_port_is_stripped :
  stripped "myregistry.io:443/nginx:1.19" = "myregistry.io/nginx:1.19"
  ∧ ImageStringToContainerStruct "myregistry.io:443/nginx:1.19"
    = Return ({| FullPath := "myregistry.io:443/nginx:1.19";
                 URL := "myregistry.io"; Name := "nginx";
                 Version := "1.19" |}, None)
  ∧ ImageStringToContainerStruct "myregistry.io/nginx:1.19"
    = Return ({| FullPath := "myregistry.io/nginx:1.19";
                 URL := "myregistry.io"; Name := "nginx";
                 Version := "1.19" |}, None).
Proof. repeat split. Qed.

(** Claim C10.  The record returned next to an error is the zero value:
    its four fields are empty, and it does not hold the input. *)
Theorem error_record_is_zero (raw : string) (c : Container) (e : error) :
  ImageStringToContainerStruct raw = Return (c, Some e) →
  c = Container_zero
  ∧ FullPath c = "" ∧ URL c = "" ∧ Name c = "" ∧ Version c = ""
  ∧ FullPath c ≠ raw.
Proof.
  intros H.
  assert (c = Container_zero) as ->.
  { rewrite ImageStringToContainerStruct_by_cases in H.
    unfold parse_by_cases in H. repeat case_match; by simplify_eq. }
  repeat split. intros <-. discriminate H.
Qed.

Lemma error_record_is_zero_witness :
  FullPath Container_zero ≠ "myregistry.io:5000/nginx:1.19".
Proof.
  apply (error_record_is_zero "myregistry.io:5000/nginx:1.19"
           Container_zero UnsupportedPortSyntax).
  reflexivity.
Defined.

End Parser.

(** * The monad of cluster computations *)

Lemma M_eta {A : Type} (m : M A) : mkM (calls m) (outcome m) = m.
Proof. by destruct m. Qed.

Section Monad.

Context {A B : Type}.

Lemma M_bind_Return (m : M A) (f : A → M B) (a : A) :
  outcome m = Return a →
  m ≫= f = mkM (calls m ++ calls (f a)) (outcome (f a)).
Proof. intros H. unfold mbind, M_bind. by rewrite H. Qed.

Lemma M_bind_mret (a : A) (f : A → M B) : mret a ≫= f = f a.
Proof. unfold mbind, mret, M_bind, M_ret. simpl. apply M_eta. Qed.

Lemma outcome_bind_Return (m : M A) (f : A → M B) (a : A) :
  outcome m = Return a → outcome (m ≫= f) = outcome (f a).
Proof. intros H. by rewrite (M_bind_Return _ _ _ H). Qed.

Lemma for_range_cons (x : A) (l : list A) (body : B → A → M B) (s : B) :
  for_range (x :: l) body s = body s x ≫= (fun s' => for_range l body s').
Proof. reflexivity. Qed.

End Monad.

(** * Collecting and aggregating images *)

Section Inventory.

Variable Config : Type.
Variable env : Env Config.
Variable rangeKeys : gmap string bool → list string.
Hypothesis rangeKeys_keys : ∀ m, rangeKeys m ≡ₚ (map_to_list m).*1.

Lemma elem_of_rangeKeys (m : gmap string bool) (k : string) :
  k ∈ rangeKeys m ↔ is_Some (m !! k).
Proof.
  rewrite rangeKeys_keys, list_elem_of_fmap. split.
  - intros ([k' v] & -> & Hin). apply elem_of_map_to_list in Hin. eauto.
  - intros [v Hv]. exists (k, v). split; [done|].
    by apply elem_of_map_to_list.
Qed.

Lemma NoDup_rangeKeys (m : gmap string bool) : NoDup (rangeKeys m).
Proof. rewrite rangeKeys_keys. apply NoDup_fst_map_to_list. Qed.

(** [m[key] = true] for every key of a list. *)
Lemma lookup_insert_keys (keys : list string) :
  ∀ (m : gmap string bool) (k : string),
    is_Some (foldl (fun m key => <[key := true]> m) m keys !! k)
    ↔ is_Some (m !! k) ∨ k ∈ keys.
Proof.
  induction keys as [|key keys IH]; intros m k; simpl.
  - rewrite elem_of_nil. tauto.
  - rewrite IH, elem_of_cons. destruct (decide (key = k)) as [->|Hne].
    + rewrite lookup_insert_eq. split; [eauto | intros _; left; eauto].
    + rewrite lookup_insert_ne by done. intuition congruence.
Qed.

Lemma lookup_pod_images (pods : list Pod) :
  ∀ (m : gmap string bool) (k : string),
    is_Some (foldl (fun containers pod =>
               let containers :=
                 foldl (fun containers container =>
                          <[Image container := true]> containers)
                       containers (Containers (Spec pod)) in
               foldl (fun containers container =>
                        <[Image container := true]> containers)
                     containers (InitContainers (Spec pod)))
             m pods !! k)
    ↔ is_Some (m !! k) ∨ k ∈ pods ≫= pod_images.
Proof.
  induction pods as [|pod pods IH]; intros m k; cbn [foldl].
  - cbn. rewrite elem_of_nil. tauto.
  - rewrite IH. cbn zeta.
    rewrite <- !(foldl_fmap (fun m key => <[key := true]> m) _ _ Image).
    rewrite !lookup_insert_keys.
    change ((pod :: pods) ≫= pod_images)
      with (pod_images pod ++ (pods ≫= pod_images)).
    unfold pod_images at 2. rewrite !elem_of_app. tauto.
Qed.

(** The collector: one request, and the set of the namespace's images. *)
Lemma getRunningContainers_images (client : Clientset) (namespace : string)
    (pods : PodList) :
  Pods_List client namespace = inl pods →
  ∃ m : gmap string bool,
    getRunningContainers client namespace
    = mkM [ListPods namespace] (Return m)
    ∧ ∀ k, is_Some (m !! k) ↔ k ∈ namespace_images client namespace.
Proof.
  intros Hpods. unfold getRunningContainers, request_Pods_List.
  rewrite Hpods. eexists. split; [reflexivity|].
  intros k. unfold namespace_images. rewrite Hpods, lookup_pod_images.
  rewrite lookup_empty. split; [intros [[? ?]|?]; done | eauto].
Qed.

(** The first loop of the aggregator: the union over the namespaces. *)
Lemma collect_loop (client : Clientset) (namespaces : list string) :
  (∀ ns, ns ∈ namespaces → ∃ pods, Pods_List client ns = inl pods) →
  ∀ runningContainers : gmap string bool,
  ∃ m : gmap string bool,
    for_range namespaces (fun runningContainers namespace =>
      containers ← getRunningContainers client namespace;
      mret (foldl (fun runningContainers key =>
                     <[key := true]> runningContainers)
                  runningContainers (rangeKeys containers)))
      runningContainers
    = mkM (ListPods <$> namespaces) (Return m)
    ∧ ∀ k, is_Some (m !! k)
           ↔ is_Some (runningContainers !! k)
             ∨ k ∈ cluster_images client namespaces.
Proof.
  induction namespaces as [|ns namespaces IH]; intros Hok rc.
  - exists rc. split; [done|]. intros k. cbn. rewrite elem_of_nil. tauto.
  - destruct (Hok ns) as [pods Hpods]; [by left|].
    destruct (getRunningContainers_images _ _ _ Hpods) as (m1 & Hm1 & Hk1).
    destruct (IH (fun ns' Hin => Hok ns' (list_elem_of_further _ _ _ Hin))
                (foldl (fun m key => <[key := true]> m) rc (rangeKeys m1)))
      as (m & Hm & Hk).
    exists m. split.
    + rewrite for_range_cons, Hm1.
      erewrite M_bind_Return by reflexivity.
      erewrite M_bind_Return by reflexivity.
      cbn [outcome calls mret M_ret]. rewrite Hm. reflexivity.
    + intros k. rewrite Hk, lookup_insert_keys, elem_of_rangeKeys, Hk1.
      change (cluster_images client (ns :: namespaces))
        with (namespace_images client ns ++ cluster_images client namespaces).
      rewrite elem_of_app. tauto.
Qed.

(** The second loop: the records of the keys that parse, in the order of
    the keys, when no key makes the parser panic. *)
Lemma parse_loop (keys : list string) :
  (∀ k, k ∈ keys → ∀ e, ImageStringToContainerStruct k ≠ Panic e) →
  ∀ containers : list Container,
    for_range keys (fun containers key =>
      '(container, err) ← lift (ImageStringToContainerStruct key);
      match err with
      | None => mret (containers ++ [container])
      | Some _ => mret containers
      end)
      containers
    = mkM [] (Return (containers ++ omap accepted keys)).
Proof.
  induction keys as [|key keys IH]; intros Hok containers.
  - cbn. by rewrite app_nil_r.
  - rewrite for_range_cons. cbn [omap list_omap]. unfold accepted at 1.
    destruct (ImageStringToContainerStruct_outcomes key)
      as [[c Hc]|[Hc|Hc]].
    + rewrite Hc. unfold lift.
      erewrite M_bind_Return by reflexivity.
      erewrite M_bind_Return by reflexivity.
      cbn [outcome calls mret M_ret].
      rewrite IH by (intros; apply Hok; by right).
      cbn. by rewrite <- app_assoc.
    + rewrite Hc. unfold lift.
      erewrite M_bind_Return by reflexivity.
      erewrite M_bind_Return by reflexivity.
      cbn [outcome calls mret M_ret].
      rewrite IH by (intros; apply Hok; by right). done.
    + exfalso. eapply Hok; [by left | exact Hc].
Qed.

(** The aggregator, end to end: when the client is built, the namespaces
    resolve, their pods can be listed and no image makes the parser panic,
    the inventory is the records of the distinct images that parse. *)
Lemma GetContainersFromNamespaces_inventory (namespaces : list string)
    (useLocally : bool) (client : Clientset) (resolved : list string) :
  outcome (getKubernetesClient Config env useLocally) = Return client →
  outcome (getNamespaces namespaces client) = Return resolved →
  (∀ ns, ns ∈ resolved → ∃ pods, Pods_List client ns = inl pods) →
  (∀ s, s ∈ cluster_images client resolved →
        ∀ e, ImageStringToContainerStruct s ≠ Panic e) →
  ∃ keys : list string,
    NoDup keys
    ∧ (∀ s, s ∈ keys ↔ s ∈ cluster_images client resolved)
    ∧ outcome (GetContainersFromNamespaces Config env rangeKeys
                 namespaces useLocally)
      = Return (omap accepted keys).
Proof.
  intros Hclient Hns Hpods Hpanic.
  destruct (collect_loop client resolved Hpods ∅) as (m & Hm & Hk).
  exists (rangeKeys m). split; [apply NoDup_rangeKeys|]. split.
  - intros s. rewrite elem_of_rangeKeys, Hk, lookup_empty.
    split; [intros [[? ?]|?]; done | eauto].
  - unfold GetContainersFromNamespaces.
    rewrite (outcome_bind_Return _ _ _ Hclient).
    rewrite (outcome_bind_Return _ _ _ Hns).
    rewrite Hm.
    erewrite outcome_bind_Return by reflexivity.
    rewrite parse_loop.
    + reflexivity.
    + intros k Hin. apply Hpanic.
      apply elem_of_rangeKeys, Hk in Hin as [Hin|Hin]; [|done].
      rewrite lookup_empty in Hin. by destruct Hin.
Qed.

End Inventory.

(** * The inventory as a list of accepted records *)

Section Accepted.

Lemma accepted_Some (key : string) (c : Container) :
  accepted key = Some c
  ↔ ImageStringToContainerStruct key = Return (c, None).
Proof.
  unfold accepted. split.
  - intros H. repeat case_match; by simplify_eq.
  - by intros ->.
Qed.

Lemma accepted_FullPath (key : string) (c : Container) :
  accepted key = Some c → FullPath c = key.
Proof.
  rewrite accepted_Some, ImageStringToContainerStruct_by_cases.
  unfold parse_by_cases. intros H. repeat case_match; by simplify_eq.
Qed.

Lemma accepted_None_of_error (key : string) (c : Container) (e : error) :
  ImageStringToContainerStruct key = Return (c, Some e) →
  accepted key = None.
Proof. unfold accepted. by intros ->. Qed.

Lemma length_omap_accepted (keys : list string) :
  (∀ s, s ∈ keys → ∃ c, ImageStringToContainerStruct s = Return (c, None)) →
  length (omap accepted keys) = length keys.
Proof.
  induction keys as [|key keys IH]; intros Hok; [done|].
  destruct (Hok key) as [c Hc]; [by left|].
  apply accepted_Some in Hc. cbn. rewrite Hc. cbn.
  by rewrite IH by (intros; apply Hok; by right).
Qed.

Lemma FullPath_omap_accepted (keys : list string) :
  FullPath <$> omap accepted keys
  = filter (fun key => is_Some (accepted key)) keys.
Proof.
  induction keys as [|key keys IH]; [done|].
  cbn [omap list_omap]. destruct (accepted key) as [c|] eqn:Hc.
  - rewrite filter_cons_True by (rewrite Hc; eauto).
    cbn. by rewrite IH, (accepted_FullPath _ _ Hc).
  - rewrite filter_cons_False by (rewrite Hc; by intros [? ?]).
    exact IH.
Qed.

Lemma filter_FullPath_absent (keys : list string) (s : string) :
  s ∉ keys ∨ accepted s = None →
  filter (fun c => FullPath c = s) (omap accepted keys) = [].
Proof.
  intros Hs. induction keys as [|key keys IH]; [done|].
  cbn [omap list_omap]. destruct (accepted key) as [c|] eqn:Hc.
  - rewrite filter_cons_False.
    + apply IH. destruct Hs as [Hs|Hs]; [|by right].
      left. intros Hin. apply Hs. by right.
    + rewrite (accepted_FullPath _ _ Hc). intros ->.
      destruct Hs as [Hs|Hs]; [apply Hs; by left | congruence].
  - apply IH. destruct Hs as [Hs|Hs]; [|by right].
    left. intros Hin. apply Hs. by right.
Qed.

Lemma filter_FullPath_accepted (keys : list string) (s : string)
    (c : Container) :
  NoDup keys → s ∈ keys → accepted s = Some c →
  filter (fun c' => FullPath c' = s) (omap accepted keys) = [c].
Proof.
  intros Hnd Hin Hc. induction keys as [|key keys IH]; [by inversion Hin|].
  apply NoDup_cons in Hnd as [Hkey Hnd].
  cbn [omap list_omap]. apply elem_of_cons in Hin as [<-|Hin].
  - rewrite Hc. rewrite filter_cons_True by by apply accepted_FullPath.
    f_equal. apply filter_FullPath_absent. by left.
  - destruct (accepted key) as [c'|] eqn:Hc'; [|by apply IH].
    rewrite filter_cons_False; [by apply IH|].
    rewrite (accepted_FullPath _ _ Hc'). by intros ->.
Qed.

End Accepted.

(** * The aggregator and the namespace resolver *)

Section Aggregator.

Variable Config : Type.
Variable env : Env Config.
Variable rangeKeys : gmap string bool → list string.
Hypothesis rangeKeys_keys : ∀ m, rangeKeys m ≡ₚ (map_to_list m).*1.

(** A refused image is dropped.  When the images of the inspected
    namespaces are [N] distinct strings that parse and one that is refused
    with an error, the aggregator returns, and returns exactly the [N]
    records of the strings that parse. *)
Theorem refused_image_is_dropped (namespaces : list string)
    (useLocally : bool) (client : Clientset) (resolved : list string)
    (good : list string) (bad : string) :
  outcome (getKubernetesClient Config env useLocally) = Return client →
  outcome (getNamespaces namespaces client) = Return resolved →
  (∀ ns, ns ∈ resolved → ∃ pods, Pods_List client ns = inl pods) →
  NoDup good → bad ∉ good →
  (∀ s, s ∈ cluster_images client resolved ↔ s ∈ good ∨ s = bad) →
  (∀ s, s ∈ good →
        ∃ c, ImageStringToContainerStruct s = Return (c, None)) →
  (∃ c e, ImageStringToContainerStruct bad = Return (c, Some e)) →
  ∃ l : list Container,
    outcome (GetContainersFromNamespaces Config env rangeKeys
               namespaces useLocally) = Return l
    ∧ length l = length good
    ∧ ∀ c, c ∈ l ↔ ∃ s, s ∈ good
                        ∧ ImageStringToContainerStruct s = Return (c, None).
Proof.
  intros Hclient Hns Hpods Hnd Hbad Himages Hgood (c0 & e0 & Hrefused).
  destruct (GetContainersFromNamespaces_inventory Config env rangeKeys
              rangeKeys_keys namespaces useLocally client resolved
              Hclient Hns Hpods) as (keys & Hkeys & Hin & Hout).
  { intros s Hs e Hpanic. apply Himages in Hs as [Hs| ->].
    - destruct (Hgood s Hs) as [c Hc]. congruence.
    - congruence. }
  assert (keys ≡ₚ bad :: good) as Hperm.
  { apply NoDup_Permutation; [done | by apply NoDup_cons |].
    intros s. rewrite Hin, Himages, elem_of_cons. tauto. }
  assert (omap accepted keys ≡ₚ omap accepted good) as Hl.
  { rewrite Hperm. cbn.
    by rewrite (accepted_None_of_error _ _ _ Hrefused). }
  exists (omap accepted keys). split; [done|]. split.
  - rewrite Hl. by apply length_omap_accepted.
  - intros c. rewrite Hl, list_elem_of_omap.
    split; intros (s & Hs & Hc); exists s; split; try done;
      by apply accepted_Some.
Qed.

(** Claim C8, amended.  However many namespaces and pods report an image
    string, the inventory has one record for it when it parses and none
    when it is refused with an error; no two records share a [FullPath]. *)
Theorem one_record_per_parsed_image (namespaces : list string)
    (useLocally : bool) (client : Clientset) (resolved : list string)
    (nsA nsB s : string) :
  outcome (getKubernetesClient Config env useLocally) = Return client →
  outcome (getNamespaces namespaces client) = Return resolved →
  (∀ ns, ns ∈ resolved → ∃ pods, Pods_List client ns = inl pods) →
  (∀ s', s' ∈ cluster_images client resolved →
         ∀ e, ImageStringToContainerStruct s' ≠ Panic e) →
  nsA ∈ resolved → nsB ∈ resolved →
  s ∈ namespace_images client nsA → s ∈ namespace_images client nsB →
  ∃ l : list Container,
    outcome (GetContainersFromNamespaces Config env rangeKeys
               namespaces useLocally) = Return l
    ∧ NoDup (FullPath <$> l)
    ∧ (∀ c, ImageStringToContainerStruct s = Return (c, None) →
            filter (fun c' => FullPath c' = s) l = [c])
    ∧ (∀ c e, ImageStringToContainerStruct s = Return (c, Some e) →
              filter (fun c' => FullPath c' = s) l = []).
Proof.
  intros Hclient Hns Hpods Hpanic HA HB HsA HsB.
  destruct (GetContainersFromNamespaces_inventory Config env rangeKeys
              rangeKeys_keys namespaces useLocally client resolved
              Hclient Hns Hpods Hpanic) as (keys & Hkeys & Hin & Hout).
  assert (s ∈ keys) as Hs.
  { apply Hin. unfold cluster_images. apply list_elem_of_bind. eauto. }
  exists (omap accepted keys). split; [done|]. split; [|split].
  - rewrite FullPath_omap_accepted. by apply NoDup_filter.
  - intros c Hc. apply filter_FullPath_accepted; [done..|].
    by apply accepted_Some.
  - intros c e Hc. apply filter_FullPath_absent. right.
    by eapply accepted_None_of_error.
Qed.

End Aggregator.

Lemma keys_in_map_order_keys (m : gmap string bool) :
  keys_in_map_order m ≡ₚ (map_to_list m).*1.
Proof. reflexivity. Qed.

Lemma refused_image_is_dropped_witness :
  ∃ l : list Container,
    outcome (GetContainersFromNamespaces unit (env_with mixed_client)
               keys_in_map_order ["default"] false) = Return l
    ∧ length l = 2
    ∧ ∀ c, c ∈ l
           ↔ ∃ s, s ∈ ["nginx:1.19"; "myregistry.io/nginx:1.19"]
                  ∧ ImageStringToContainerStruct s = Return (c, None).
Proof.
  apply (refused_image_is_dropped unit (env_with mixed_client)
           keys_in_map_order keys_in_map_order_keys ["default"] false
           mixed_client ["default"]
           ["nginx:1.19"; "myregistry.io/nginx:1.19"]
           "myregistry.io:5000/nginx:1.19").
  - reflexivity.
  - reflexivity.
  - intros ns _. eexists. reflexivity.
  - apply (bool_decide_unpack _). vm_compute. exact I.
  - apply (bool_decide_unpack _). vm_compute. exact I.
  - intros s. vm_compute cluster_images.
    rewrite !elem_of_cons, elem_of_nil. tauto.
  - intros s Hs. repeat (apply elem_of_cons in Hs as [->|Hs]).
    + eexists. reflexivity.
    + eexists. reflexivity.
    + by apply elem_of_nil in Hs.
  - eexists _, _. reflexivity.
Defined.

(** Claim C8, as stated, fails: two namespaces report the same reference
    with an explicit port; it is refused, and the inventory holds no record
    for it. *)
Lemma refused_image_has_no_record :
  ¬ (∀ (Config : Type) (env : Env Config)
       (rangeKeys : gmap string bool → list string),
       (∀ m, rangeKeys m ≡ₚ (map_to_list m).*1) →
       ∀ (namespaces : list string) (useLocally : bool) (client : Clientset)
         (resolved : list string) (nsA nsB s : string),
         outcome (getKubernetesClient Config env useLocally) = Return client →
         outcome (getNamespaces namespaces client) = Return resolved →
         nsA ∈ resolved → nsB ∈ resolved → nsA ≠ nsB →
         s ∈ namespace_images client nsA → s ∈ namespace_images client nsB →
         ∃ l : list Container,
           outcome (GetContainersFromNamespaces Config env rangeKeys
                      namespaces useLocally) = Return l
           ∧ length (filter (fun c => FullPath c = s) l) = 1).
Proof.
  intros H.
  destruct (H unit
              (env_with (two_namespaces_client "myregistry.io:5000/nginx:1.19"))
              keys_in_map_order keys_in_map_order_keys [] false
              (two_namespaces_client "myregistry.io:5000/nginx:1.19")
              ["A"; "B"] "A" "B" "myregistry.io:5000/nginx:1.19")
    as (l & Hl & Hlen).
  - reflexivity.
  - reflexivity.
  - by left.
  - right. by left.
  - discriminate.
  - vm_compute. by left.
  - vm_compute. by left.
  - vm_compute in Hl. injection Hl as <-. discriminate Hlen.
Qed.

Lemma one_record_per_parsed_image_witness :
  ∃ l : list Container,
    outcome (GetContainersFromNamespaces unit
               (env_with (two_namespaces_client "nginx:1.19"))
               keys_in_map_order [] false) = Return l
    ∧ filter (fun c' => FullPath c' = "nginx:1.19") l
      = [ {| FullPath := "nginx:1.19"; URL := ""; Name := "nginx";
             Version := "1.19" |} ].
Proof.
  destruct (one_record_per_parsed_image unit
              (env_with (two_namespaces_client "nginx:1.19"))
              keys_in_map_order keys_in_map_order_keys [] false
              (two_namespaces_client "nginx:1.19") ["A"; "B"]
              "A" "B" "nginx:1.19")
    as (l & Hl & _ & Hone & _).
  - reflexivity.
  - reflexivity.
  - intros ns _. eexists. reflexivity.
  - intros s' Hs' e. vm_compute in Hs'.
    repeat (apply elem_of_cons in Hs' as [->|Hs']); try discriminate.
    by apply elem_of_nil in Hs'.
  - by left.
  - right. by left.
  - vm_compute. by left.
  - vm_compute. by left.
  - exists l. split; [exact Hl|]. by apply Hone.
Defined.

(** Claim C9.  A non-empty list of requested namespaces is returned as it
    is, and no request is sent to the cluster; the empty list, and only the
    empty list, is resolved by listing the namespaces of the cluster. *)
Theorem getNamespaces_requested (namespaces : list string)
    (client : Clientset) :
  (namespaces ≠ [] →
   getNamespaces namespaces client = mkM [] (Return namespaces))
  ∧ (namespaces = [] →
     getNamespaces namespaces client = getAllNamespaces client)
  ∧ (ListNamespaces ∈ calls (getNamespaces namespaces client)
     ↔ namespaces = []).
Proof.
  unfold getNamespaces. destruct namespaces as [|ns namespaces].
  - change (length (@nil string) =? 0) with true. cbv iota.
    split; [done|]. split; [done|]. split; [done|]. intros _.
    unfold getAllNamespaces, request_Namespaces_List.
    erewrite M_bind_Return by reflexivity. cbn [calls].
    apply elem_of_app. left. by left.
  - change (length (ns :: namespaces) =? 0) with false. cbv iota.
    split; [done|]. split; [done|]. split; [|done].
    intros Hin. by apply elem_of_nil in Hin.
Qed.

Lemma getNamespaces_requested_witness :
  getNamespaces ["kube-system"; "default"] mixed_client
  = mkM [] (Return ["kube-system"; "default"]).
Proof.
  apply (proj1 (getNamespaces_requested ["kube-system"; "default"]
                  mixed_client)).
  discriminate.
Defined.

(** * Separators and pieces *)

Section Pieces.

Import strings.

Lemma string_app_cons (c : ascii) (s1 s2 : string) :
  String c s1 +:+ s2 = String c (s1 +:+ s2).
Proof. reflexivity. Qed.

Lemma string_app_assoc (s1 s2 s3 : string) :
  (s1 +:+ s2) +:+ s3 = s1 +:+ s2 +:+ s3.
Proof.
  induction s1 as [|c s1 IH]; [done|]. by rewrite !string_app_cons, IH.
Qed.

Lemma Contains_byte_cons (a c : ascii) (s : string) :
  Contains (String c s) (String a EmptyString)
  = Ascii.eqb a c || Contains s (String a EmptyString).
Proof. cbn [Contains]. by rewrite HasPrefix_byte. Qed.

Lemma Count_byte_cons (a c : ascii) (s : string) :
  Count (String c s) (String a EmptyString)
  = (if Ascii.eqb a c then 1 else 0) + Count s (String a EmptyString).
Proof.
  unfold Count. cbn [Count_from]. rewrite HasPrefix_byte.
  by destruct (Ascii.eqb a c).
Qed.

Lemma before_after_byte (b : ascii) (s : string) :
  Contains s (String b EmptyString) = true →
  before_byte b s +:+ String b (after_byte b s) = s.
Proof.
  induction s as [|c s IH]; [done|].
  rewrite Contains_byte_cons. cbn [before_byte after_byte].
  rewrite (Ascii.eqb_sym c b).
  destruct (Ascii.eqb_spec b c) as [->|Hne]; [done|].
  cbn [orb]. intros Hc. by rewrite string_app_cons, IH.
Qed.

Lemma Contains_before_byte_self (b : ascii) (s : string) :
  Contains (before_byte b s) (String b EmptyString) = false.
Proof.
  induction s as [|c s IH]; [done|]. cbn [before_byte].
  rewrite (Ascii.eqb_sym c b).
  destruct (Ascii.eqb b c) eqn:Hb; [done|].
  by rewrite Contains_byte_cons, Hb, IH.
Qed.

Lemma Contains_byte_before_byte (a b : ascii) (s : string) :
  Contains s (String a EmptyString) = false →
  Contains (before_byte b s) (String a EmptyString) = false.
Proof.
  induction s as [|c s IH]; [done|].
  rewrite Contains_byte_cons. intros [Ha Hs]%orb_false_elim.
  cbn [before_byte]. destruct (Ascii.eqb c b); [done|].
  by rewrite Contains_byte_cons, Ha, IH.
Qed.

Lemma Contains_byte_after_byte (a b : ascii) (s : string) :
  Contains s (String a EmptyString) = false →
  Contains (after_byte b s) (String a EmptyString) = false.
Proof.
  induction s as [|c s IH]; [done|].
  rewrite Contains_byte_cons. intros [Ha Hs]%orb_false_elim.
  cbn [after_byte]. destruct (Ascii.eqb c b); [done | by apply IH].
Qed.

Lemma Contains_after_byte_self (b : ascii) (s : string) :
  Count s (String b EmptyString) < 2 →
  Contains (after_byte b s) (String b EmptyString) = false.
Proof.
  induction s as [|c s IH]; [done|].
  rewrite Count_byte_cons. cbn [after_byte]. rewrite (Ascii.eqb_sym c b).
  destruct (Ascii.eqb b c); intros Hlt.
  - apply Contains_Count; [done | lia].
  - apply IH. lia.
Qed.

(** Nothing to replace: [Replace] gives the string back. *)
Lemma Replace_absent (old new s : string) :
  Contains s old = false → Replace s old new = s.
Proof.
  unfold Replace. induction s as [|c s IH]; [done|].
  cbn [Contains Replace_from]. intros [Hp Hs]%orb_false_elim.
  by rewrite Hp, IH.
Qed.

Lemma stripped_suffix_443 (n : string) :
  Contains n ":" = false → stripped (n +:+ ":443") = n.
Proof.
  unfold stripped, Replace. induction n as [|c n IH]; [done|].
  rewrite Contains_byte_cons. intros [Hc Hn]%orb_false_elim.
  rewrite string_app_cons. cbn [Replace_from HasPrefix].
  rewrite Hc. cbn [andb]. by rewrite IH.
Qed.

End Pieces.

(** * More on the parser *)

Section ParserFacts.

Import strings.

Local Arguments SplitN : simpl never.
Local Arguments Split : simpl never.
Local Arguments Contains : simpl never.
Local Arguments Count : simpl never.

Lemma string_app_nil_r (s : string) : s +:+ "" = s.
Proof.
  induction s as [|c s IH]; [done|]. by rewrite string_app_cons, IH.
Qed.

(** Property X1.  The parser returns a record, without error, exactly when
    at most one colon is left once [":443"] is removed and the working name
    has a ['/'] whenever it has a dot. *)
Theorem parser_returns_record_iff (raw : string) :
  (∃ c, ImageStringToContainerStruct raw = Return (c, None))
  ↔ Count (stripped raw) ":" < 2
    ∧ (Contains (working_name raw) "." = true →
       Contains (working_name raw) "/" = true).
Proof.
  rewrite ImageStringToContainerStruct_by_cases. unfold parse_by_cases.
  destruct (Nat.leb_spec 2 (Count (stripped raw) ":")).
  - split; [by intros [? ?] | lia].
  - destruct (Contains (working_name raw) ".").
    + destruct (Contains (working_name raw) "/").
      * split; [done | eauto].
      * split; [by intros [? ?] | intros [_ H']; by specialize (H' eq_refl)].
    + split; [done | eauto].
Qed.

(** Property X2.  The parser never ends the process; its one panic is the
    read of piece 1 of a one-piece slice, and it happens exactly when at
    most one colon is left and the working name has a dot and no ['/']. *)
Theorem parser_panics_iff (raw : string) :
  (∀ msg, ImageStringToContainerStruct raw ≠ Fatal msg)
  ∧ (∀ e, ImageStringToContainerStruct raw = Panic e →
          e = IndexOutOfRange 1 1)
  ∧ (ImageStringToContainerStruct raw = Panic (IndexOutOfRange 1 1)
     ↔ Count (stripped raw) ":" < 2
       ∧ Contains (working_name raw) "." = true
       ∧ Contains (working_name raw) "/" = false).
Proof.
  rewrite ImageStringToContainerStruct_by_cases. unfold parse_by_cases.
  destruct (Nat.leb_spec 2 (Count (stripped raw) ":")).
  - split; [done|]. split; [done|]. split; [done | lia].
  - destruct (Contains (working_name raw) ".").
    + destruct (Contains (working_name raw) "/").
      * split; [done|]. split; [done|]. split; [done | by intros (_ & _ & ?)].
      * split; [done|]. split; [by intros e [= <-]|]. done.
    + split; [done|]. split; [done|]. split; [done | by intros (_ & ? & _)].
Qed.

(** Property X3.  A reference without [":443"] that parses is put together
    again from the fields of its record: the host and a ['/'] when the
    working name has a dot, the name, and a colon and the version when the
    reference has a colon. *)
Theorem parsed_record_reassembles (raw : string) (c : Container) :
  Contains raw ":443" = false →
  ImageStringToContainerStruct raw = Return (c, None) →
  raw = (if Contains (working_name raw) "."
         then URL c +:+ "/" +:+ Name c else Name c)
        +:+ (if Contains raw ":" then ":" +:+ Version c else "").
Proof.
  intros Hno. rewrite ImageStringToContainerStruct_by_cases.
  unfold parse_by_cases, tag_of, working_name.
  assert (stripped raw = raw) as -> by by apply Replace_absent.
  destruct (2 <=? Count raw ":"); [done|].
  destruct (Contains raw ":") eqn:Hcolon.
  - pose proof (before_after_byte _ _ Hcolon) as Hraw.
    destruct (Contains (before_byte ":" raw) ".").
    + destruct (Contains (before_byte ":" raw) "/") eqn:Hslash; [|done].
      intros [= <-]. cbn [URL Name Version].
      change ("/" +:+ after_byte "/" (before_byte ":" raw))
        with (String "/" (after_byte "/" (before_byte ":" raw))).
      by rewrite (before_after_byte _ _ Hslash).
    + intros [= <-]. cbn [URL Name Version]. done.
  - rewrite (before_byte_absent _ _ Hcolon).
    destruct (Contains raw ".").
    + destruct (Contains raw "/") eqn:Hslash; [|done].
      intros [= <-]. cbn [URL Name Version]. rewrite string_app_nil_r.
      change ("/" +:+ after_byte "/" raw) with (String "/" (after_byte "/" raw)).
      by rewrite (before_after_byte _ _ Hslash).
    + intros [= <-]. cbn [URL Name Version]. by rewrite string_app_nil_r.
Qed.

Lemma parsed_record_reassembles_witness :
  "myregistry.io/nginx:1.19" = "myregistry.io" +:+ "/" +:+ "nginx" +:+ ":" +:+ "1.19".
Proof.
  rewrite <- string_app_assoc.
  exact (parsed_record_reassembles "myregistry.io/nginx:1.19"
           {| FullPath := "myregistry.io/nginx:1.19"; URL := "myregistry.io";
              Name := "nginx"; Version := "1.19" |} eq_refl eq_refl).
Defined.

(** Property X4.  The separators do not reach the fields: the version of a
    parsed record has no colon, its host has no ['/'] and no colon, and its
    name has no colon when the reference had a colon or a dotted working
    name. *)
Theorem parsed_fields_without_separators (raw : string) (c : Container) :
  ImageStringToContainerStruct raw = Return (c, None) →
  Contains (Version c) ":" = false
  ∧ Contains (URL c) "/" = false
  ∧ Contains (URL c) ":" = false
  ∧ (Contains (stripped raw) ":" = true
     ∨ Contains (working_name raw) "." = true →
     Contains (Name c) ":" = false).
Proof.
  rewrite ImageStringToContainerStruct_by_cases.
  unfold parse_by_cases, tag_of, working_name.
  destruct (Nat.leb_spec 2 (Count (stripped raw) ":")) as [|Hlt]; [done|].
  pose proof (Contains_after_byte_self ":" _ Hlt) as Hafter.
  pose proof (Contains_before_byte_self ":" (stripped raw)) as Hbefore.
  destruct (Contains (before_byte ":" (stripped raw)) ".").
  - destruct (Contains (before_byte ":" (stripped raw)) "/"); [|done].
    intros [= <-]. cbn [URL Name Version]. repeat split.
    + by destruct (Contains (stripped raw) ":").
    + apply Contains_before_byte_self.
    + by apply Contains_byte_before_byte.
    + intros _. by apply Contains_byte_after_byte.
  - intros [= <-]. cbn [URL Name Version]. repeat split.
    + by destruct (Contains (stripped raw) ":").
    + intros [Hc|Hd]; [|done]. by rewrite Hc.
Qed.

Lemma parsed_fields_without_separators_witness :
  Contains "1.19" ":" = false ∧ Contains "myregistry.io" "/" = false.
Proof.
  destruct (parsed_fields_without_separators "myregistry.io/nginx:1.19"
              {| FullPath := "myregistry.io/nginx:1.19";
                 URL := "myregistry.io"; Name := "nginx";
                 Version := "1.19" |} eq_refl) as (Hv & Hu & _).
  by split.
Defined.

(** Property X5.  The tag [443] is lost: for a reference [n] without colon,
    [n:443] is parsed as [n], so its version is ["0"]; and when [n] has no
    dot either, the name of the record is the whole [n:443]. *)
Theorem tag_443_is_stripped (n : string) :
  Contains n ":" = false →
  stripped (n +:+ ":443") = n
  ∧ (∀ c, ImageStringToContainerStruct (n +:+ ":443") = Return (c, None) →
          Version c = "0")
  ∧ (Contains n "." = false →
     ImageStringToContainerStruct (n +:+ ":443")
     = Return ({| FullPath := n +:+ ":443"; URL := "";
                  Name := n +:+ ":443"; Version := "0" |}, None)).
Proof.
  intros Hn. pose proof (stripped_suffix_443 n Hn) as Hs.
  split; [done|].
  rewrite ImageStringToContainerStruct_by_cases.
  unfold parse_by_cases, tag_of, working_name. rewrite Hs, Hn.
  rewrite (before_byte_absent _ _ Hn).
  assert (Count n ":" = 0) as -> by by apply Contains_Count.
  cbn [Nat.leb]. split.
  - intros c Hc. repeat case_match; by simplify_eq.
  - by intros ->.
Qed.

Lemma tag_443_is_stripped_witness :
  ImageStringToContainerStruct ("nginx" +:+ ":443")
  = Return ({| FullPath := "nginx" +:+ ":443"; URL := "";
               Name := "nginx" +:+ ":443"; Version := "0" |}, None).
Proof.
  apply (tag_443_is_stripped "nginx"); reflexivity.
Defined.

(** Property X6.  A reference without [":443"] is parsed as it is: it is
    refused exactly when it has two or more colons itself. *)
Theorem reference_without_443_is_parsed_as_given (raw : string) :
  Contains raw ":443" = false →
  stripped raw = raw
  ∧ (ImageStringToContainerStruct raw
     = Return (Container_zero, Some UnsupportedPortSyntax)
     ↔ 2 ≤ Count raw ":").
Proof.
  intros Hno. assert (stripped raw = raw) as Hs by by apply Replace_absent.
  split; [done|].
  rewrite ImageStringToContainerStruct_by_cases. unfold parse_by_cases.
  rewrite Hs. destruct (Nat.leb_spec 2 (Count raw ":")); [done|].
  split; [|lia]. intros H'. repeat case_match; simplify_eq.
Qed.

Lemma reference_without_443_is_parsed_as_given_witness :
  stripped "myregistry.io:5000/nginx:1.19" = "myregistry.io:5000/nginx:1.19".
Proof.
  apply (reference_without_443_is_parsed_as_given
           "myregistry.io:5000/nginx:1.19").
  reflexivity.
Defined.

End ParserFacts.

(** * More on the cluster computations *)

Section MonadFacts.

Context {A B : Type}.

Lemma M_bind_Fatal (m : M A) (f : A → M B) (msg : string) :
  outcome m = Fatal msg → m ≫= f = mkM (calls m) (Fatal msg).
Proof. intros H. unfold mbind, M_bind. by rewrite H. Qed.

Lemma M_bind_Panic (m : M A) (f : A → M B) (e : runtime_error) :
  outcome m = Panic e → m ≫= f = mkM (calls m) (Panic e).
Proof. intros H. unfold mbind, M_bind. by rewrite H. Qed.

Lemma M_bind_mret_r (m : M A) : m ≫= mret = m.
Proof.
  unfold mbind, M_bind. destruct m as [t [a|e|msg]]; cbn; [|done..].
  by rewrite app_nil_r.
Qed.

Lemma foldl_snoc_fmap (f : A → B) (l : list A) :
  ∀ acc : list B, foldl (fun acc x => acc ++ [f x]) acc l = acc ++ (f <$> l).
Proof.
  induction l as [|x l IH]; intros acc; cbn.
  - by rewrite app_nil_r.
  - by rewrite IH, <- app_assoc.
Qed.

End MonadFacts.

Section ClusterFacts.

Variable Config : Type.
Variable env : Env Config.

Lemma getKubernetesClient_calls (useLocally : bool) :
  calls (getKubernetesClient Config env useLocally) = [].
Proof. unfold getKubernetesClient. by repeat case_match. Qed.

Lemma getKubernetesClient_Return (useLocally : bool) (client : Clientset) :
  outcome (getKubernetesClient Config env useLocally) = Return client →
  getKubernetesClient Config env useLocally = mkM [] (Return client).
Proof.
  intros H. rewrite <- (M_eta (getKubernetesClient _ _ _)).
  by rewrite H, getKubernetesClient_calls.
Qed.

Lemma getAllNamespaces_discovered (client : Clientset)
    (discovered : NamespaceList) :
  Namespaces_List client = inl discovered →
  getAllNamespaces client
  = mkM [ListNamespaces] (Return (namespace_names discovered)).
Proof.
  intros Hlist. unfold getAllNamespaces, request_Namespaces_List.
  erewrite M_bind_Return by reflexivity. rewrite Hlist.
  cbn [calls outcome mret M_ret]. unfold namespace_names.
  by rewrite (foldl_snoc_fmap
                (fun namespace => GetName (GetObjectMeta namespace))).
Qed.

Lemma getRunningContainers_fatal (client : Clientset) (namespace : string)
    (err : error) :
  Pods_List client namespace = inr err →
  getRunningContainers client namespace
  = mkM [ListPods namespace] (Fatal "Could not fetch pods").
Proof.
  intros Hpods. unfold getRunningContainers, request_Pods_List.
  erewrite M_bind_Return by reflexivity. by rewrite Hpods.
Qed.

(** Property X7.  Namespace discovery sends one request; it returns the
    names of the listed namespaces, in the order of the answer, and ends the
    process when the request fails. *)
Theorem getAllNamespaces_names (client : Clientset) :
  match Namespaces_List client with
  | inl namespaces =>
      getAllNamespaces client
      = mkM [ListNamespaces] (Return (namespace_names namespaces))
  | inr _ =>
      getAllNamespaces client
      = mkM [ListNamespaces] (Fatal "Could not fetch namespaces")
  end.
Proof.
  unfold getAllNamespaces, request_Namespaces_List.
  erewrite M_bind_Return by reflexivity.
  destruct (Namespaces_List client) as [namespaces|err]; [|done].
  cbn [calls outcome mret M_ret]. unfold namespace_names.
  by rewrite (foldl_snoc_fmap
                (fun namespace => GetName (GetObjectMeta namespace))).
Qed.

Lemma insert_keys_true (keys : list string) :
  ∀ m : gmap string bool,
    map_Forall (fun _ v => v = true) m →
    map_Forall (fun _ v => v = true)
      (foldl (fun m key => <[key := true]> m) m keys).
Proof.
  induction keys as [|key keys IH]; intros m Hm; [done|].
  cbn. apply IH. by apply map_Forall_insert_2.
Qed.

(** Property X8.  The collector sends one request for the namespace; its
    result holds exactly the images of the containers and of the init
    containers of the pods listed, each once and with the value [true]; a
    failed request ends the process. *)
Theorem getRunningContainers_set (client : Clientset) (namespace : string) :
  match Pods_List client namespace with
  | inl pods =>
      ∃ m : gmap string bool,
        getRunningContainers client namespace
        = mkM [ListPods namespace] (Return m)
        ∧ dom m = list_to_set (namespace_images client namespace)
        ∧ ∀ k v, m !! k = Some v → v = true
  | inr _ =>
      getRunningContainers client namespace
      = mkM [ListPods namespace] (Fatal "Could not fetch pods")
  end.
Proof.
  unfold getRunningContainers, request_Pods_List, namespace_images.
  erewrite M_bind_Return by reflexivity.
  destruct (Pods_List client namespace) as [pods|err]; [|done].
  eexists. split; [reflexivity|]. split.
  - apply set_eq. intros k.
    rewrite elem_of_dom, elem_of_list_to_set,
      (lookup_pod_images (pod_Items pods) ∅ k), lookup_empty.
    split; [intros [[? ?]|?]; done | eauto].
  - generalize (map_Forall_empty (M := gmap string)
                  (fun (_ : string) (v : bool) => v = true)).
    generalize (∅ : gmap string bool).
    induction (pod_Items pods) as [|pod l IH]; intros m Hm; [exact Hm|].
    cbn [foldl]. apply IH.
    rewrite <- !(foldl_fmap (fun m key => <[key := true]> m) _ _ Image).
    by do 2 apply insert_keys_true.
Qed.

End ClusterFacts.

(** * More on the aggregator *)

Section AggregatorFacts.

Variable Config : Type.
Variable env : Env Config.
Variable rangeKeys : gmap string bool → list string.
Hypothesis rangeKeys_keys : ∀ m, rangeKeys m ≡ₚ (map_to_list m).*1.

(** The second loop sends no request. *)
Lemma inventory_loop_calls (keys : list string) :
  ∀ containers : list Container,
    calls (for_range keys (fun containers key =>
             '(container, err) ← lift (ImageStringToContainerStruct key);
             match err with
             | None => mret (containers ++ [container])
             | Some _ => mret containers
             end)
             containers) = [].
Proof.
  induction keys as [|key keys IH]; intros containers; [done|].
  rewrite for_range_cons. unfold lift.
  destruct (ImageStringToContainerStruct_outcomes key) as [[c Hc]|[Hc|Hc]];
    rewrite Hc.
  - erewrite M_bind_Return by reflexivity.
    erewrite M_bind_Return by reflexivity.
    cbn [outcome calls mret M_ret]. by rewrite IH.
  - erewrite M_bind_Return by reflexivity.
    erewrite M_bind_Return by reflexivity.
    cbn [outcome calls mret M_ret]. by rewrite IH.
  - erewrite M_bind_Panic by reflexivity.
    by erewrite M_bind_Panic by reflexivity.
Qed.

(** A key on which the parser panics makes the second loop panic. *)
Lemma inventory_loop_panic (keys : list string) :
  (∃ k e, k ∈ keys ∧ ImageStringToContainerStruct k = Panic e) →
  ∀ containers : list Container,
    outcome (for_range keys (fun containers key =>
               '(container, err) ← lift (ImageStringToContainerStruct key);
               match err with
               | None => mret (containers ++ [container])
               | Some _ => mret containers
               end)
               containers) = Panic (IndexOutOfRange 1 1).
Proof.
  induction keys as [|key keys IH]; intros (k & e & Hin & Hk) containers.
  - by apply elem_of_nil in Hin.
  - assert ((∃ e', ImageStringToContainerStruct key = Panic e')
            ∨ ∃ k e, k ∈ keys ∧ ImageStringToContainerStruct k = Panic e)
      as Hcase.
    { apply elem_of_cons in Hin as [->|Hin]; [left | right]; eauto. }
    rewrite for_range_cons. unfold lift.
    destruct (ImageStringToContainerStruct_outcomes key) as [[c Hc]|[Hc|Hc]];
      rewrite Hc.
    + destruct Hcase as [[e' He']|Hrest]; [congruence|].
      erewrite M_bind_Return by reflexivity.
      erewrite M_bind_Return by reflexivity.
      cbn [outcome calls mret M_ret]. by apply IH.
    + destruct Hcase as [[e' He']|Hrest]; [congruence|].
      erewrite M_bind_Return by reflexivity.
      erewrite M_bind_Return by reflexivity.
      cbn [outcome calls mret M_ret]. by apply IH.
    + erewrite M_bind_Panic by reflexivity.
      by erewrite M_bind_Panic by reflexivity.
Qed.

(** The aggregator up to its second loop. *)
Lemma GetContainersFromNamespaces_run (namespaces : list string)
    (useLocally : bool) (client : Clientset) (t : list api_call)
    (resolved : list string) :
  outcome (getKubernetesClient Config env useLocally) = Return client →
  getNamespaces namespaces client = mkM t (Return resolved) →
  (∀ ns, ns ∈ resolved → ∃ pods, Pods_List client ns = inl pods) →
  ∃ m : gmap string bool,
    (∀ k, is_Some (m !! k) ↔ k ∈ cluster_images client resolved)
    ∧ GetContainersFromNamespaces Config env rangeKeys namespaces useLocally
      = mkM (t ++ (ListPods <$> resolved))
            (outcome (inventory_of_keys (rangeKeys m))).
Proof.
  intros Hclient Hns Hpods.
  destruct (collect_loop rangeKeys rangeKeys_keys client resolved
              Hpods ∅) as (m & Hm & Hk).
  exists m. split.
  - intros k. rewrite Hk, lookup_empty.
    split; [intros [[? ?]|?]; done | eauto].
  - unfold GetContainersFromNamespaces.
    rewrite (getKubernetesClient_Return _ _ _ _ Hclient).
    erewrite M_bind_Return by reflexivity. rewrite Hns.
    erewrite M_bind_Return by reflexivity. cbn [calls outcome].
    rewrite Hm. erewrite M_bind_Return by reflexivity. cbn [calls outcome].
    rewrite M_bind_mret_r. fold (inventory_of_keys (rangeKeys m)).
    unfold inventory_of_keys at 1. rewrite inventory_loop_calls.
    by rewrite !app_nil_r.
Qed.

(** Property X9.  When the client is built and the pods of every namespace
    can be listed, the aggregator asks for the pods of each namespace once,
    in the order of the list; a non-empty requested list is never preceded
    by a namespace listing, and the empty list is resolved by one. *)
Theorem requests_sent (namespaces : list string) (useLocally : bool)
    (client : Clientset) :
  outcome (getKubernetesClient Config env useLocally) = Return client →
  (namespaces ≠ [] →
   (∀ ns, ns ∈ namespaces → ∃ pods, Pods_List client ns = inl pods) →
   calls (GetContainersFromNamespaces Config env rangeKeys
            namespaces useLocally) = ListPods <$> namespaces)
  ∧ (namespaces = [] →
     ∀ discovered, Namespaces_List client = inl discovered →
     (∀ ns, ns ∈ namespace_names discovered →
            ∃ pods, Pods_List client ns = inl pods) →
     calls (GetContainersFromNamespaces Config env rangeKeys
              namespaces useLocally)
     = ListNamespaces :: (ListPods <$> namespace_names discovered)).
Proof.
  intros Hclient. split.
  - intros Hne Hpods.
    destruct (GetContainersFromNamespaces_run namespaces useLocally client
                [] namespaces Hclient) as (m & _ & ->); [|done..].
    unfold getNamespaces. by destruct namespaces.
  - intros -> discovered Hlist Hpods.
    destruct (GetContainersFromNamespaces_run [] useLocally client
                [ListNamespaces] (namespace_names discovered) Hclient)
      as (m & _ & ->); [|done..].
    by apply getAllNamespaces_discovered.
Qed.

(** Property X10.  Collection stops at the first namespace whose pods
    cannot be listed: the process ends, and no later namespace is asked
    for. *)
Theorem pod_listing_failure_is_fatal (namespaces : list string)
    (useLocally : bool) (client : Clientset) (t : list api_call)
    (before : list string) (failing : string) (after : list string)
    (err : error) :
  outcome (getKubernetesClient Config env useLocally) = Return client →
  getNamespaces namespaces client
  = mkM t (Return (before ++ failing :: after)) →
  (∀ ns, ns ∈ before → ∃ pods, Pods_List client ns = inl pods) →
  Pods_List client failing = inr err →
  GetContainersFromNamespaces Config env rangeKeys namespaces useLocally
  = mkM (t ++ (ListPods <$> before) ++ [ListPods failing])
        (Fatal "Could not fetch pods").
Proof.
  intros Hclient Hns Hpods Hfail.
  unfold GetContainersFromNamespaces.
  rewrite (getKubernetesClient_Return _ _ _ _ Hclient).
  erewrite M_bind_Return by reflexivity. rewrite Hns.
  erewrite M_bind_Return by reflexivity. cbn [calls outcome].
  match goal with
  | |- context [for_range (before ++ failing :: after) ?body ?s] =>
      assert (∀ s', for_range (before ++ failing :: after) body s'
              = mkM ((ListPods <$> before) ++ [ListPods failing])
                    (Fatal "Could not fetch pods")) as Hloop
  end.
  { clear Hns. induction before as [|ns before IH]; intros s'; cbn [app].
    - rewrite for_range_cons. cbn beta.
      rewrite (getRunningContainers_fatal _ _ _ Hfail).
      erewrite M_bind_Fatal by reflexivity.
      by erewrite M_bind_Fatal by reflexivity.
    - rewrite for_range_cons. cbn beta.
      destruct (Hpods ns) as [pods Hp]; [by left|].
      destruct (getRunningContainers_images client ns pods Hp)
        as (m & -> & _).
      erewrite M_bind_Return by reflexivity.
      erewrite M_bind_Return by reflexivity.
      cbn [calls outcome mret M_ret].
      rewrite IH by (intros; apply Hpods; by right). done. }
  rewrite Hloop. by erewrite M_bind_Fatal by reflexivity.
Qed.

(** Property X11.  One image on which the parser panics, reported by any
    namespace, makes the whole aggregation panic: no inventory is
    returned. *)
Theorem dotted_image_aborts_inventory (namespaces : list string)
    (useLocally : bool) (client : Clientset) (resolved : list string)
    (s : string) (e : runtime_error) :
  outcome (getKubernetesClient Config env useLocally) = Return client →
  outcome (getNamespaces namespaces client) = Return resolved →
  (∀ ns, ns ∈ resolved → ∃ pods, Pods_List client ns = inl pods) →
  s ∈ cluster_images client resolved →
  ImageStringToContainerStruct s = Panic e →
  outcome (GetContainersFromNamespaces Config env rangeKeys
             namespaces useLocally) = Panic (IndexOutOfRange 1 1).
Proof.
  intros Hclient Hns Hpods Hs He.
  destruct (GetContainersFromNamespaces_run namespaces useLocally client
              (calls (getNamespaces namespaces client)) resolved Hclient)
    as (m & Hm & ->); [|done|].
  { by rewrite <- Hns, M_eta. }
  cbn [outcome]. apply inventory_loop_panic.
  exists s, e. split; [|done].
  by apply (elem_of_rangeKeys rangeKeys rangeKeys_keys), Hm.
Qed.

(** Property X14.  When the aggregator returns, its inventory holds the
    records of the reported images that parse and nothing else, and it is
    not longer than the list of reported images. *)
Theorem inventory_of_reported_images (namespaces : list string)
    (useLocally : bool) (client : Clientset) (resolved : list string) :
  outcome (getKubernetesClient Config env useLocally) = Return client →
  outcome (getNamespaces namespaces client) = Return resolved →
  (∀ ns, ns ∈ resolved → ∃ pods, Pods_List client ns = inl pods) →
  (∀ s, s ∈ cluster_images client resolved →
        ∀ e, ImageStringToContainerStruct s ≠ Panic e) →
  ∃ l : list Container,
    outcome (GetContainersFromNamespaces Config env rangeKeys
               namespaces useLocally) = Return l
    ∧ (∀ c, c ∈ l
            ↔ FullPath c ∈ cluster_images client resolved
              ∧ ImageStringToContainerStruct (FullPath c) = Return (c, None))
    ∧ length l ≤ length (cluster_images client resolved).
Proof.
  intros Hclient Hns Hpods Hpanic.
  destruct (GetContainersFromNamespaces_inventory Config env rangeKeys
              rangeKeys_keys namespaces useLocally client resolved
              Hclient Hns Hpods Hpanic) as (keys & Hnd & Hin & Hout).
  exists (omap accepted keys). split; [done|]. split.
  - intros c. rewrite list_elem_of_omap. split.
    + intros (k & Hk & Hc). rewrite (accepted_FullPath _ _ Hc).
      split; [by apply Hin | by apply accepted_Some].
    + intros [Hk Hc]. exists (FullPath c).
      split; [by apply Hin | by apply accepted_Some].
  - trans (length keys).
    + clear. induction keys as [|k keys IH]; [done|].
      cbn. destruct (accepted k); cbn; lia.
    + apply submseteq_length, NoDup_submseteq; [done|].
      intros k Hk. by apply Hin.
Qed.

End AggregatorFacts.

Lemma requests_sent_witness :
  calls (GetContainersFromNamespaces unit
           (env_with (two_namespaces_client "nginx:1.19"))
           keys_in_map_order ["B"; "A"] false)
  = [ListPods "B"; ListPods "A"].
Proof.
  apply (proj1 (requests_sent unit
                  (env_with (two_namespaces_client "nginx:1.19"))
                  keys_in_map_order keys_in_map_order_keys ["B"; "A"] false
                  (two_namespaces_client "nginx:1.19") eq_refl)).
  - discriminate.
  - intros ns _. eexists. reflexivity.
Defined.

Lemma pod_listing_failure_is_fatal_witness :
  GetContainersFromNamespaces unit (env_with forbidden_B_client)
    keys_in_map_order ["A"; "B"; "C"] false
  = mkM [ListPods "A"; ListPods "B"] (Fatal "Could not fetch pods").
Proof.
  apply (pod_listing_failure_is_fatal unit (env_with forbidden_B_client)
           keys_in_map_order ["A"; "B"; "C"] false
           forbidden_B_client [] ["A"] "B" ["C"] (errors_New "forbidden")).
  - reflexivity.
  - reflexivity.
  - intros ns Hns. apply list_elem_of_singleton in Hns as ->.
    eexists. reflexivity.
  - reflexivity.
Defined.

Lemma dotted_image_aborts_inventory_witness :
  outcome (GetContainersFromNamespaces unit
             (env_with (two_namespaces_client "my.image:1.0"))
             keys_in_map_order [] false) = Panic (IndexOutOfRange 1 1).
Proof.
  apply (dotted_image_aborts_inventory unit
           (env_with (two_namespaces_client "my.image:1.0"))
           keys_in_map_order keys_in_map_order_keys [] false
           (two_namespaces_client "my.image:1.0") ["A"; "B"]
           "my.image:1.0" (IndexOutOfRange 1 1)).
  - reflexivity.
  - reflexivity.
  - intros ns _. eexists. reflexivity.
  - vm_compute. by left.
  - reflexivity.
Defined.

Lemma inventory_of_reported_images_witness :
  ∃ l : list Container,
    outcome (GetContainersFromNamespaces unit (env_with mixed_client)
               keys_in_map_order ["default"] false) = Return l
    ∧ length l ≤ 3.
Proof.
  destruct (inventory_of_reported_images unit (env_with mixed_client)
              keys_in_map_order keys_in_map_order_keys ["default"] false
              mixed_client ["default"]) as (l & Hl & _ & Hlen).
  - reflexivity.
  - reflexivity.
  - intros ns _. eexists. reflexivity.
  - intros s Hs e. vm_compute in Hs.
    repeat (apply elem_of_cons in Hs as [->|Hs]); try discriminate.
    by apply elem_of_nil in Hs.
  - exists l. split; [exact Hl | exact Hlen].
Defined.

(** * The inventory does not depend on the order of the visits *)

Section Orders.

Variable Config : Type.
Variable env : Env Config.
Variables rangeKeys1 rangeKeys2 : gmap string bool → list string.
Hypothesis rangeKeys1_keys : ∀ m, rangeKeys1 m ≡ₚ (map_to_list m).*1.
Hypothesis rangeKeys2_keys : ∀ m, rangeKeys2 m ≡ₚ (map_to_list m).*1.

Lemma inventory_Permutation (namespaces1 namespaces2 : list string)
    (useLocally : bool) (client : Clientset)
    (resolved1 resolved2 : list string) :
  outcome (getKubernetesClient Config env useLocally) = Return client →
  outcome (getNamespaces namespaces1 client) = Return resolved1 →
  outcome (getNamespaces namespaces2 client) = Return resolved2 →
  (∀ ns, ns ∈ resolved1 ↔ ns ∈ resolved2) →
  (∀ ns, ns ∈ resolved1 → ∃ pods, Pods_List client ns = inl pods) →
  (∀ s, s ∈ cluster_images client resolved1 →
        ∀ e, ImageStringToContainerStruct s ≠ Panic e) →
  ∃ l1 l2 : list Container,
    outcome (GetContainersFromNamespaces Config env rangeKeys1
               namespaces1 useLocally) = Return l1
    ∧ outcome (GetContainersFromNamespaces Config env rangeKeys2
                 namespaces2 useLocally) = Return l2
    ∧ l1 ≡ₚ l2.
Proof.
  intros Hclient Hns1 Hns2 Hsame Hpods Hpanic.
  assert (∀ s, s ∈ cluster_images client resolved1
               ↔ s ∈ cluster_images client resolved2) as Himages.
  { intros s. unfold cluster_images. rewrite !list_elem_of_bind.
    split; intros (ns & Hs & Hin); exists ns; split; try done;
      by apply Hsame. }
  destruct (GetContainersFromNamespaces_inventory Config env rangeKeys1
              rangeKeys1_keys namespaces1 useLocally client resolved1
              Hclient Hns1 Hpods Hpanic) as (keys1 & Hnd1 & Hin1 & Hout1).
  destruct (GetContainersFromNamespaces_inventory Config env rangeKeys2
              rangeKeys2_keys namespaces2 useLocally client resolved2
              Hclient Hns2) as (keys2 & Hnd2 & Hin2 & Hout2).
  { intros ns Hin. by apply Hpods, Hsame. }
  { intros s Hs. by apply Hpanic, Himages. }
  exists (omap accepted keys1), (omap accepted keys2).
  split; [done|]. split; [done|].
  apply omap_Permutation, NoDup_Permutation; [done..|].
  intros s. by rewrite Hin1, Hin2.
Qed.

End Orders.

(** Property X12.  The order in which the keys of a map are visited only
    permutes the inventory: two admissible orders give the same records. *)
Theorem inventory_up_to_iteration_order (Config : Type) (env : Env Config)
    (rangeKeys1 rangeKeys2 : gmap string bool → list string)
    (namespaces : list string) (useLocally : bool) (client : Clientset)
    (resolved : list string) :
  (∀ m, rangeKeys1 m ≡ₚ (map_to_list m).*1) →
  (∀ m, rangeKeys2 m ≡ₚ (map_to_list m).*1) →
  outcome (getKubernetesClient Config env useLocally) = Return client →
  outcome (getNamespaces namespaces client) = Return resolved →
  (∀ ns, ns ∈ resolved → ∃ pods, Pods_List client ns = inl pods) →
  (∀ s, s ∈ cluster_images client resolved →
        ∀ e, ImageStringToContainerStruct s ≠ Panic e) →
  ∃ l1 l2 : list Container,
    outcome (GetContainersFromNamespaces Config env rangeKeys1
               namespaces useLocally) = Return l1
    ∧ outcome (GetContainersFromNamespaces Config env rangeKeys2
                 namespaces useLocally) = Return l2
    ∧ l1 ≡ₚ l2.
Proof.
  intros H1 H2 Hclient Hns Hpods Hpanic.
  by apply (inventory_Permutation Config env rangeKeys1 rangeKeys2 H1 H2
              namespaces namespaces useLocally client resolved resolved).
Qed.

Lemma inventory_up_to_iteration_order_witness :
  ∃ l1 l2 : list Container,
    outcome (GetContainersFromNamespaces unit (env_with mixed_client)
               keys_in_map_order ["default"] false) = Return l1
    ∧ outcome (GetContainersFromNamespaces unit (env_with mixed_client)
                 (fun m => reverse (keys_in_map_order m)) ["default"] false)
      = Return l2
    ∧ l1 ≡ₚ l2.
Proof.
  apply (inventory_up_to_iteration_order unit (env_with mixed_client)
           keys_in_map_order (fun m => reverse (keys_in_map_order m))
           ["default"] false mixed_client ["default"]).
  - exact keys_in_map_order_keys.
  - intros m. apply reverse_Permutation.
  - reflexivity.
  - reflexivity.
  - intros ns _. eexists. reflexivity.
  - intros s Hs e. vm_compute in Hs.
    repeat (apply elem_of_cons in Hs as [->|Hs]); try discriminate.
    by apply elem_of_nil in Hs.
Defined.

(** Property X13.  The inventory depends on the namespaces only as a set:
    two lists of requested namespaces with the same members, in any order
    and with any repetition, give the same records up to their order. *)
Theorem inventory_up_to_namespace_order (Config : Type) (env : Env Config)
    (rangeKeys : gmap string bool → list string)
    (namespaces1 namespaces2 : list string) (useLocally : bool)
    (client : Clientset) :
  (∀ m, rangeKeys m ≡ₚ (map_to_list m).*1) →
  outcome (getKubernetesClient Config env useLocally) = Return client →
  namespaces1 ≠ [] →
  (∀ ns, ns ∈ namespaces1 ↔ ns ∈ namespaces2) →
  (∀ ns, ns ∈ namespaces1 → ∃ pods, Pods_List client ns = inl pods) →
  (∀ s, s ∈ cluster_images client namespaces1 →
        ∀ e, ImageStringToContainerStruct s ≠ Panic e) →
  ∃ l1 l2 : list Container,
    outcome (GetContainersFromNamespaces Config env rangeKeys
               namespaces1 useLocally) = Return l1
    ∧ outcome (GetContainersFromNamespaces Config env rangeKeys
                 namespaces2 useLocally) = Return l2
    ∧ l1 ≡ₚ l2.
Proof.
  intros Hkeys Hclient Hne Hsame Hpods Hpanic.
  apply (inventory_Permutation Config env rangeKeys rangeKeys Hkeys Hkeys
           namespaces1 namespaces2 useLocally client
           namespaces1 namespaces2); try done.
  - unfold getNamespaces. by destruct namespaces1.
  - unfold getNamespaces. destruct namespaces2 as [|ns2 l2]; [|done].
    destruct namespaces1 as [|ns1 l1]; [done|].
    exfalso. eapply elem_of_nil, Hsame. by left.
Qed.

Lemma inventory_up_to_namespace_order_witness :
  ∃ l1 l2 : list Container,
    outcome (GetContainersFromNamespaces unit
               (env_with (two_namespaces_client "nginx:1.19"))
               keys_in_map_order ["A"; "B"] false) = Return l1
    ∧ outcome (GetContainersFromNamespaces unit
                 (env_with (two_namespaces_client "nginx:1.19"))
                 keys_in_map_order ["B"; "A"; "A"] false) = Return l2
    ∧ l1 ≡ₚ l2.
Proof.
  apply (inventory_up_to_namespace_order unit
           (env_with (two_namespaces_client "nginx:1.19"))
           keys_in_map_order ["A"; "B"] ["B"; "A"; "A"] false
           (two_namespaces_client "nginx:1.19")).
  - exact keys_in_map_order_keys.
  - reflexivity.
  - discriminate.
  - intros ns. rewrite !elem_of_cons, !elem_of_nil. tauto.
  - intros ns _. eexists. reflexivity.
  - intros s Hs e. vm_compute in Hs.
    repeat (apply elem_of_cons in Hs as [->|Hs]); try discriminate.
    by apply elem_of_nil in Hs.
Defined.

(** * Logging set-up *)

(** Property X16.  Whatever the logger was before, [initLogging] sends the
    log to standard output and keeps errors enabled; entries at the info
    level are written exactly when [Verbose] or [Debug] is set, and entries
    at the debug level exactly when [Debug] is set and [Verbose] is not:
    [Verbose] takes precedence over [Debug]. *)
Theorem initLogging_levels (ConfigFlags : CommandFlags) (std : Logger) :
  Out (initLogging ConfigFlags std) = os_Stdout
  ∧ log_IsLevelEnabled (initLogging ConfigFlags std) ErrorLevel = true
  ∧ log_IsLevelEnabled (initLogging ConfigFlags std) WarnLevel
    = Verbose ConfigFlags || Debug ConfigFlags
  ∧ log_IsLevelEnabled (initLogging ConfigFlags std) InfoLevel
    = Verbose ConfigFlags || Debug ConfigFlags
  ∧ log_IsLevelEnabled (initLogging ConfigFlags std) DebugLevel
    = negb (Verbose ConfigFlags) && Debug ConfigFlags
  ∧ log_IsLevelEnabled (initLogging ConfigFlags std) TraceLevel = false
  ∧ ∀ std', initLogging ConfigFlags std' = initLogging ConfigFlags std.
Proof.
  unfold initLogging.
  destruct (Verbose ConfigFlags), (Debug ConfigFlags); repeat split.
Qed.

(** * One unparsable image among valid ones *)

(** Claim C7.  The aggregator does fail as a whole on one image that fails
    to parse: with ["nginx:1.19"] and ["myregistry.io/nginx:1.19"], which
    parse, and the bare host ["quay.io"], on which the parser panics, the
    pods are listed and then the aggregation panics, in either order of the
    keys; no record is returned, not even those of the two valid images. *)
Theorem unparsable_image_aborts_aggregation :
  (∃ c, ImageStringToContainerStruct "nginx:1.19" = Return (c, None))
  ∧ (∃ c, ImageStringToContainerStruct "myregistry.io/nginx:1.19"
          = Return (c, None))
  ∧ ImageStringToContainerStruct "quay.io" = Panic (IndexOutOfRange 1 1)
  ∧ cluster_images bare_host_client ["default"]
    = ["nginx:1.19"; "quay.io"; "myregistry.io/nginx:1.19"]
  ∧ GetContainersFromNamespaces unit (env_with bare_host_client)
      keys_in_map_order ["default"] false
    = mkM [ListPods "default"] (Panic (IndexOutOfRange 1 1))
  ∧ GetContainersFromNamespaces unit (env_with bare_host_client)
      (fun m => reverse (keys_in_map_order m)) ["default"] false
    = mkM [ListPods "default"] (Panic (IndexOutOfRange 1 1)).
Proof.
  split; [eexists; reflexivity|]. split; [eexists; reflexivity|].
  split; [reflexivity|]. split; [reflexivity|].
  split; vm_compute; reflexivity.
Qed.
